(** * Verification of the zipper deployment reconciler (remote-ftp.ts, remote-sftp.ts,
      remote-ssh.ts and the shell deploy/restore scripts).

    The TypeScript transports are embedded as functions that produce the list of
    RemoteFS calls they issue ([event]s), in the order the code awaits them.
    Remote paths recorded in calls are the paths the code passes: relative to the
    resolved webroot for the files of the run, absolute for the webroot set-up
    and the SFTP [ensureDirAbs] calls. The SFTP client addresses every file as
    [joinRemote(resolvedWebroot, rel)]; the FTP client resolves a relative path
    against its working directory, which [ensureDir] moves, and its runs are
    modelled with that state ([FtpState]).

    A JS string is a sequence of UTF-16 code units; the model's strings are the
    ones whose code units are all below 256, one [ascii] per unit. *)

From Stdlib Require Import String Ascii List Bool ZArith Lia Sorting.Permutation Sorting.Sorted.
Import ListNotations.
Local Open Scope string_scope.

(* ------------------------------------------------------------------ *)
(** ** Path helpers (JS string operations used by the transports) *)

Definition slash : ascii := "/"%char.
Definition dot : ascii := "."%char.
Definition backslash : ascii := ascii_of_nat 92.

Definition to_slash (c : ascii) : ascii := if Ascii.eqb c backslash then slash else c.

(** [p.replaceAll("\\", "/").replace(/^\.?\//, "")] *)
Definition normalize (p : string) : string :=
  let l := map to_slash (list_ascii_of_string p) in
  string_of_list_ascii
    (match l with
     | c1 :: c2 :: t => if Ascii.eqb c1 dot && Ascii.eqb c2 slash then t
                        else if Ascii.eqb c1 slash then c2 :: t else l
     | c1 :: t => if Ascii.eqb c1 slash then t else l
     | [] => []
     end).

(** [s.endsWith("/")] *)
Definition ends_with_slash (s : string) : bool :=
  match rev (list_ascii_of_string s) with
  | c :: _ => Ascii.eqb c slash
  | [] => false
  end.

Fixpoint drop_slashes (l : list ascii) : list ascii :=
  match l with
  | c :: t => if Ascii.eqb c slash then drop_slashes t else l
  | [] => []
  end.

(** [s.replace(/\/+$/, "")] *)
Definition strip_trailing_slashes (s : string) : string :=
  string_of_list_ascii (rev (drop_slashes (rev (list_ascii_of_string s)))).

(** [isPreserveMatch] (remote-ftp.ts) / [preserveMatch] (remote-sftp.ts). *)
Definition isPreserveMatch (rel preserve : string) : bool :=
  if ends_with_slash preserve
  then String.prefix (strip_trailing_slashes preserve ++ "/") rel
  else String.eqb rel preserve.

(** [const preserves = (preservePaths ?? []).map(normalize);
     const isPreservedRel = (rel) => preserves.some(p => isPreserveMatch(rel, p));] *)
Definition isPreservedRel (preservePaths : list string) (rel : string) : bool :=
  existsb (fun p => isPreserveMatch rel p) (map normalize preservePaths).

(** The destructuring default of [preservePaths] in [uploadViaFTP], [restoreViaFTP],
    [uploadViaSFTP] and [restoreViaSFTP]; [None] is an [undefined] option. *)
Definition default_preservePaths : list string :=
  ["uploads/"; "storage/"; ".well-known/"; "robots.txt"].

Definition resolve_preservePaths (o : option (list string)) : list string :=
  match o with
  | Some l => l
  | None => default_preservePaths
  end.

Definition mem (x : string) (l : list string) : bool := existsb (String.eqb x) l.

Fixpoint drop_to_slash (l : list ascii) : option (list ascii) :=
  match l with
  | [] => None
  | c :: t => if Ascii.eqb c slash then Some t else drop_to_slash t
  end.

(** [path.posix.dirname] on relative file paths (no trailing slash). *)
Definition posix_dirname (s : string) : string :=
  match drop_to_slash (rev (list_ascii_of_string s)) with
  | None => "."
  | Some [] => "/"
  | Some r => string_of_list_ascii (rev r)
  end.

Fixpoint split_on (sep : ascii) (l : list ascii) : list (list ascii) :=
  match l with
  | [] => [[]]
  | c :: t =>
      if Ascii.eqb c sep then [] :: split_on sep t
      else match split_on sep t with
           | [] => [[c]]
           | w :: ws => (c :: w) :: ws
           end
  end.

(** [absPath.replaceAll("\\", "/").split("/").filter(Boolean)] *)
Definition segments (p : string) : list string :=
  map string_of_list_ascii
    (filter (fun w => match w with [] => false | _ => true end)
       (split_on slash (map to_slash (list_ascii_of_string p)))).

(** [cur = path.posix.join(cur || "/", s)] for a plain segment [s]. *)
Definition join_segment (cur s : string) : string :=
  if String.eqb cur "" then "/" ++ s
  else if String.eqb cur "/" then "/" ++ s
  else cur ++ "/" ++ s.

Fixpoint mkdir_chain (cur : string) (segs : list string) : list string :=
  match segs with
  | [] => []
  | s :: t => let cur' := join_segment cur s in cur' :: mkdir_chain cur' t
  end.

(** [joinRemote(baseAbs, rel) = path.posix.join(baseAbs, rel)] for a normalized
    base and a relative [rel]. *)
Definition joinRemote (baseAbs rel : string) : string :=
  if ends_with_slash baseAbs then baseAbs ++ rel else baseAbs ++ "/" ++ rel.

(* ------------------------------------------------------------------ *)
(** ** Remote tree and RemoteFS calls *)

(** [type RemoteTree = { files: {rel, size}[]; dirs: {rel}[] }]; sizes are never
    consulted by the reconciliation and are left out. *)
Record RemoteTree := mkTree { files : list string; dirs : list string }.

Inductive rcall : Type :=
  | EnsureDir (p : string)   (* basic-ftp [client.ensureDir] *)
  | Mkdir (p : string)       (* ssh2-sftp-client [sftp.mkdir] *)
  | Put (p : string)         (* [uploadFrom] / [fastPut] *)
  | Delete (p : string)      (* [safeRemoveFile] *)
  | Rmdir (p : string)       (* [removeDir] / [sftp.rmdir] *)
  | ListDir (p : string).    (* [client.list] *)

Definition mutating (c : rcall) : bool :=
  match c with ListDir _ => false | _ => true end.

Inductive phase : Type := Setup | PhaseADelete | PhaseAUpload | PhaseBMerge | Prune.

Definition phase_eqb (a b : phase) : bool :=
  match a, b with
  | Setup, Setup | PhaseADelete, PhaseADelete | PhaseAUpload, PhaseAUpload
  | PhaseBMerge, PhaseBMerge | Prune, Prune => true
  | _, _ => false
  end.

(** A RemoteFS call, or a dry-run line ([- rm rel] / [+ up rel]). *)
Inductive event : Type :=
  | Call (ph : phase) (c : rcall)
  | Planned (ph : phase) (rel : string).

Inductive transport : Type := FTP | SFTP.
Inductive flow : Type := Deploy | Restore.

(* ------------------------------------------------------------------ *)
(** ** The partition computed by every FTP/SFTP run *)

Section Partition.
Variable preserves : list string.
Variable localFiles : list string.
Variable remoteTree : RemoteTree.

Definition localNonPreserve : list string :=
  filter (fun f => negb (isPreservedRel preserves f)) localFiles.

Definition localPreserve : list string :=
  filter (fun f => isPreservedRel preserves f) localFiles.

Definition remoteNonPreserve : list string :=
  filter (fun f => negb (isPreservedRel preserves f)) (files remoteTree).

Definition toDelete : list string :=
  filter (fun x => negb (mem x localNonPreserve)) remoteNonPreserve.

Definition newPreserve : list string :=
  filter (fun rel => negb (mem rel (files remoteTree))) localPreserve.
End Partition.

(* ------------------------------------------------------------------ *)
(** ** Steps shared by the transports *)

(** [ensureDirAbs(sftp, absPath)]: one [mkdir] per path prefix. *)
Definition ensureDirAbs (ph : phase) (absPath : string) : list event :=
  map (fun d => Call ph (Mkdir d))
      (mkdir_chain (if String.prefix "/" absPath then "/" else "") (segments absPath)).

(** [await client.ensureDir(resolvedWebroot); await client.cd(resolvedWebroot)] (FTP) /
    [await ensureDirAbs(sftp, resolvedWebroot)] (SFTP): run before the remote listing,
    whatever [dryRun]. *)
Definition setup_webroot (tr : transport) (webroot : string) : list event :=
  match tr with
  | FTP => [Call Setup (EnsureDir webroot)]
  | SFTP => ensureDirAbs Setup webroot
  end.

(** [for (const rel of toDelete) { if (dryRun) { ... continue; } await safeRemoveFile(...) }] *)
Definition delete_step (dryRun : bool) (rel : string) : list event :=
  if dryRun then [Planned PhaseADelete rel] else [Call PhaseADelete (Delete rel)].

Definition add_if_absent (x : string) (l : list string) : list string :=
  if mem x l then l else l ++ [x].

Definition remove_str (x : string) (l : list string) : list string :=
  filter (fun y => negb (String.eqb x y)) l.

(** [list(rel)] returned no entry. *)
Definition is_empty_dir (t : RemoteTree) (rel : string) : bool :=
  negb (existsb (String.prefix (rel ++ "/")) (files t ++ dirs t)).

(** [.sort((a, b) => b.length - a.length)] (a stable sort). *)
Fixpoint insert_desc (x : string) (l : list string) : list string :=
  match l with
  | [] => [x]
  | y :: t => if Nat.ltb (String.length y) (String.length x) then x :: l else y :: insert_desc x t
  end.

Definition sort_len_desc (l : list string) : list string :=
  fold_left (fun acc x => insert_desc x acc) l [].

(** Step 6: [remoteTree.dirs.map(x => x.rel).filter(rel => !isPreservedRel(rel + "/")).sort(...)]. *)
Definition remoteDirsDesc (preserves : list string) (t : RemoteTree) : list string :=
  sort_len_desc (filter (fun rel => negb (isPreservedRel preserves (rel ++ "/"))) (dirs t)).

Definition nonempty {A} (l : list A) : bool := match l with [] => false | _ => true end.

(* ------------------------------------------------------------------ *)
(** ** SFTP: [uploadViaSFTP] and [restoreViaSFTP] (remote-sftp.ts)

    Every SFTP call addresses an absolute path, [joinRemote(resolvedWebroot, rel)]
    for the files of the run; the events record [rel]. The event list is the
    calls of a run in which every call succeeds; when a call rejects, the run
    stops and its calls are a prefix of the list. *)

(** Body of one worker of [uploadManySftp]:
    [await ensureDirAbs(sftp, remoteDir); await sftp.fastPut(local, remote)]. *)
Definition sftp_upload_one (webroot : string) (dryRun : bool) (ph : phase) (rel : string)
    : list event :=
  if dryRun then [Planned ph rel]
  else ensureDirAbs ph (posix_dirname (joinRemote webroot rel)) ++ [Call ph (Put rel)].

(** [uploadManySftp]: the pool dispatches [relFiles] in index order; with a limit
    above 1 the calls of different files interleave, which changes neither the
    multiset of calls nor the phase boundaries (each phase is awaited before the
    next starts). *)
Definition uploadManySftp (webroot : string) (dryRun : bool) (ph : phase)
    (relFiles : list string) : list event :=
  flat_map (sftp_upload_one webroot dryRun ph) relFiles.

(** Steps 4 and 5 of [uploadViaSFTP] ([Deploy]) and [restoreViaSFTP] ([Restore]). *)
Definition sftp_body (fl : flow) (preserves localFiles : list string)
    (webroot : string) (dryRun : bool) (remoteTree : RemoteTree) : list event :=
  let lnp := localNonPreserve preserves localFiles in
  let lp := localPreserve preserves localFiles in
  let np := newPreserve preserves localFiles remoteTree in
  (* 4) Phase A: deletes, then uploads *)
  flat_map (delete_step dryRun) (toDelete preserves localFiles remoteTree)
  ++ (if nonempty lnp then uploadManySftp webroot dryRun PhaseAUpload lnp else [])
  (* 5) Phase B: deploy guards on [localPreserve.length], restore on [newPreserve.length] *)
  ++ (if nonempty (match fl with Deploy => lp | Restore => np end)
      then uploadManySftp webroot dryRun PhaseBMerge np else []).

(** Step 6 of [uploadViaSFTP]: [try { await sftp.rmdir(joinRemote(resolvedWebroot, rel)) } catch {}]. *)
Definition sftp_prune (dryRun : bool) (ds : list string) : list event :=
  flat_map (fun rel => if dryRun then [] else [Call Prune (Rmdir rel)]) ds.

(** One SFTP run from the webroot set-up on; [remoteTree] is the result of
    [listRemoteTree]. Only the deploy prunes. *)
Definition sftp_run (fl : flow) (preserves localFiles : list string)
    (webroot : string) (dryRun : bool) (remoteTree : RemoteTree) : list event :=
  setup_webroot SFTP webroot
  ++ sftp_body fl preserves localFiles webroot dryRun remoteTree
  ++ (match fl with
      | Deploy => sftp_prune dryRun (remoteDirsDesc preserves remoteTree)
      | Restore => []
      end).

(** Effect of one SFTP call on the tree below the webroot: [fastPut] creates or
    replaces the file, [delete] removes it, [rmdir] (not recursive) removes an
    empty directory and fails on another; [mkdir] creates the parents of a file
    that is put right after, so the files alone tell the tree's content. *)
Definition apply_call (t : RemoteTree) (c : rcall) : RemoteTree :=
  match c with
  | Put p => mkTree (add_if_absent p (files t)) (dirs t)
  | Delete p => mkTree (remove_str p (files t)) (dirs t)
  | Rmdir d => if is_empty_dir t d then mkTree (files t) (remove_str d (dirs t)) else t
  | EnsureDir _ | Mkdir _ | ListDir _ => t
  end.

(** The webroot set-up leaves the tree below the webroot as it is. *)
Definition apply_events (t : RemoteTree) (evs : list event) : RemoteTree :=
  fold_left (fun t e => match e with
                        | Call Setup _ => t
                        | Call _ c => apply_call t c
                        | Planned _ _ => t
                        end) evs t.

(** Remote files after an SFTP run, as the next [listRemoteTree] sees them. *)
Definition files_after (remoteTree : RemoteTree) (evs : list event) : list string :=
  files (apply_events remoteTree evs).

(* ------------------------------------------------------------------ *)
(** ** FTP: [uploadViaFTP] and [restoreViaFTP] (remote-ftp.ts) over basic-ftp

    basic-ftp's [Client] has a working directory: [cd(resolvedWebroot)] puts it at
    the webroot, and [ensureDir(dirRel)] creates [dirRel] below it and leaves the
    working directory there. [uploadFrom], [remove], [list] and [removeDir] address
    paths relative to the working directory. The state below records the remote
    tree below the webroot (the listed one, taken as what the server holds), the
    working directory relative to the webroot, and the paths the server stored,
    in order. *)

Record FtpState := mkFtp { ftree : RemoteTree; fcwd : string; fstored : list string }.

(** A relative path given to the client, resolved against the working directory. *)
Definition ftp_resolve (cwd p : string) : string :=
  if String.eqb cwd "" then p else cwd ++ "/" ++ p.

(** [remoteDirPath.split("/").filter(name => name !== "")] in [Client.ensureDir]. *)
Definition ftp_names (p : string) : list string :=
  map string_of_list_ascii
    (filter (fun w => match w with [] => false | _ => true end)
       (split_on slash (list_ascii_of_string p))).

(** [Client.ensureDir] on a relative path: for each name [MKD name], whose error
    is ignored, then [CWD name], which rejects when the name is a file. The names
    of a local path are never ["."] or [".."]. *)
Fixpoint ftp_openDirs (s : FtpState) (names : list string) : option FtpState :=
  match names with
  | [] => Some s
  | n :: rest =>
      let d := ftp_resolve (fcwd s) n in
      if mem d (files (ftree s)) then None
      else ftp_openDirs (mkFtp (mkTree (files (ftree s)) (add_if_absent d (dirs (ftree s))))
                               d (fstored s)) rest
  end.

(** [client.uploadFrom(local, rel)]: [STOR rel] from the working directory; the
    server refuses it when the parent directory of the target is missing or the
    target is a directory. *)
Definition ftp_uploadFrom (s : FtpState) (rel : string) : option FtpState :=
  let t := ftree s in
  let target := ftp_resolve (fcwd s) rel in
  let parent := posix_dirname target in
  if (String.eqb parent "." || mem parent (dirs t)) && negb (mem target (dirs t))
  then Some (mkFtp (mkTree (add_if_absent target (files t)) (dirs t)) (fcwd s)
                   (fstored s ++ [target]))
  else None.

(** [safeRemoveFile(client, rel)]: [client.remove(rel)]; when it fails,
    [client.removeDir(rel)], which deletes a directory with its content and
    comes back to the working directory; errors are ignored. *)
Definition ftp_safeRemoveFile (s : FtpState) (rel : string) : FtpState :=
  let t := ftree s in
  let target := ftp_resolve (fcwd s) rel in
  if mem target (files t)
  then mkFtp (mkTree (remove_str target (files t)) (dirs t)) (fcwd s) (fstored s)
  else if mem target (dirs t)
  then mkFtp (mkTree (filter (fun f => negb (String.prefix (target ++ "/") f)) (files t))
                     (filter (fun d => negb (String.eqb d target || String.prefix (target ++ "/") d))
                             (dirs t)))
             (fcwd s) (fstored s)
  else s.

(** [uploadMany(client, localRoot, relFiles, { concurrency: effConc, dryRun })] with
    [effConc = 1]: one file after the other, each worker running
    [if (dirRel && dirRel !== ".") await client.ensureDir(dirRel);
     await client.uploadFrom(local, rel)]. [None] is a rejection: the first
    failing call rejects the pool's promise, and with it the run; the model stops
    there. *)
Fixpoint uploadMany (dryRun : bool) (ph : phase) (s : FtpState) (relFiles : list string)
    : list event * option FtpState :=
  match relFiles with
  | [] => ([], Some s)
  | rel :: rest =>
      if dryRun then
        match uploadMany dryRun ph s rest with (evs, r) => (Planned ph rel :: evs, r) end
      else
        let dirRel := posix_dirname rel in
        let ens := negb (String.eqb dirRel "") && negb (String.eqb dirRel ".") in
        let pre := if ens then [Call ph (EnsureDir dirRel)] else [] in
        match (if ens then ftp_openDirs s (ftp_names dirRel) else Some s) with
        | None => (pre, None)
        | Some s1 =>
            match ftp_uploadFrom s1 rel with
            | None => ((pre ++ [Call ph (Put rel)])%list, None)
            | Some s2 =>
                match uploadMany dryRun ph s2 rest with
                | (evs, r) => ((pre ++ [Call ph (Put rel)] ++ evs)%list, r)
                end
            end
        end
  end.

(** Step 6 of [uploadViaFTP]: [const list = await client.list(rel)] and, when it is
    empty, [await client.removeDir(rel)], from the working directory the uploads
    left; a failing [list] (no directory there) is ignored, and a listed file is
    not empty. *)
Fixpoint ftp_prune (dryRun : bool) (s : FtpState) (ds : list string) : list event * FtpState :=
  match ds with
  | [] => ([], s)
  | rel :: rest =>
      if dryRun then ftp_prune dryRun s rest
      else
        let t := ftree s in
        let target := ftp_resolve (fcwd s) rel in
        if mem target (dirs t) && is_empty_dir t target then
          match ftp_prune dryRun (mkFtp (mkTree (files t) (remove_str target (dirs t)))
                                        (fcwd s) (fstored s)) rest with
          | (evs, s') => (Call Prune (ListDir rel) :: Call Prune (Rmdir rel) :: evs, s')
          end
        else
          match ftp_prune dryRun s rest with
          | (evs, s') => (Call Prune (ListDir rel) :: evs, s')
          end
  end.

(** One run of [uploadViaFTP] ([Deploy]) or [restoreViaFTP] ([Restore]) from the
    webroot set-up on, over the listed [remoteTree]: the calls issued, and the
    final client state, or [None] when the run rejects. *)
Definition ftp_run (fl : flow) (preserves localFiles : list string) (webroot : string)
    (dryRun : bool) (remoteTree : RemoteTree) : list event * option FtpState :=
  let lnp := localNonPreserve preserves localFiles in
  let lp := localPreserve preserves localFiles in
  let np := newPreserve preserves localFiles remoteTree in
  let dels := toDelete preserves localFiles remoteTree in
  let s0 := mkFtp remoteTree "" [] in
  let s1 := if dryRun then s0 else fold_left ftp_safeRemoveFile dels s0 in
  let evs0 := (setup_webroot FTP webroot ++ flat_map (delete_step dryRun) dels)%list in
  match (if nonempty lnp then uploadMany dryRun PhaseAUpload s1 lnp else ([], Some s1)) with
  | (evA, None) => ((evs0 ++ evA)%list, None)
  | (evA, Some sA) =>
      match (if nonempty (match fl with Deploy => lp | Restore => np end)
             then uploadMany dryRun PhaseBMerge sA np else ([], Some sA)) with
      | (evB, None) => ((evs0 ++ evA ++ evB)%list, None)
      | (evB, Some sB) =>
          match fl with
          | Restore => ((evs0 ++ evA ++ evB)%list, Some sB)
          | Deploy =>
              match ftp_prune dryRun sB (remoteDirsDesc preserves remoteTree) with
              | (evP, sP) => ((evs0 ++ evA ++ evB ++ evP)%list, Some sP)
              end
          end
      end
  end.

(** Remote files after an FTP run that completes; [None] when it rejects. *)
Definition ftp_files_after (r : list event * option FtpState) : option (list string) :=
  match snd r with Some s => Some (files (ftree s)) | None => None end.

(* ------------------------------------------------------------------ *)
(** ** Projections of an event list *)

Definition puts_in (ph : phase) (evs : list event) : list string :=
  flat_map (fun e => match e with
                     | Call ph' (Put p) => if phase_eqb ph ph' then [p] else []
                     | _ => [] end) evs.

Definition all_puts (evs : list event) : list string :=
  flat_map (fun e => match e with Call _ (Put p) => [p] | _ => [] end) evs.

Definition all_deletes (evs : list event) : list string :=
  flat_map (fun e => match e with Call _ (Delete p) => [p] | _ => [] end) evs.

Definition planned_in (ph : phase) (evs : list event) : list string :=
  flat_map (fun e => match e with
                     | Planned ph' rel => if phase_eqb ph ph' then [rel] else []
                     | _ => [] end) evs.

(* ------------------------------------------------------------------ *)
(** ** The shell transport: restore.sh and the preserve list of upload.sh *)

(** A file of a tree with its content (size and mtime, as rsync's quick check
    compares them, abstracted to one number). *)
Definition entry : Type := (string * nat)%type.

Definition entry_eqb (a b : entry) : bool :=
  String.eqb (fst a) (fst b) && Nat.eqb (snd a) (snd b).

(** [rsync -a SRC/ DST/]: files of [SRC] with no identical file in [DST] are
    transferred. *)
Definition rsync_transfers (src dst : list entry) : list string :=
  map fst (filter (fun e => negb (existsb (entry_eqb e) dst)) src).

(** [--delete]: files of [DST] absent from [SRC] are removed. *)
Definition rsync_deletes (src dst : list entry) : list string :=
  filter (fun q => negb (mem q (map fst src))) (map fst dst).

(** Step 3 of restore.sh: [rsync -a --delete --delete-delay --force "$EXTRACTED/" "$WEBROOT/"]
    (with [--dry-run] when [DRY_RUN=1]); no filter, so no preserve rule applies.
    [--delete-delay] performs the deletions after the transfer. *)
Definition restore_sh_events (dryRun : bool) (extracted webrootFiles : list entry)
    : list event :=
  if dryRun then []
  else map (fun r => Call PhaseAUpload (Put r)) (rsync_transfers extracted webrootFiles)
       ++ map (fun r => Call PhaseADelete (Delete r)) (rsync_deletes extracted webrootFiles).

Definition newline : ascii := ascii_of_nat 10.

(** [mapfile -t PRESERVE_PATHS <<< "$PRESERVE_NL"] *)
Definition nl_lines (s : string) : list string :=
  map string_of_list_ascii (split_on newline (list_ascii_of_string s)).

(** upload.sh: [if [[ -n "${PRESERVE_NL:-}" ]]; then mapfile ...; else PRESERVE_PATHS=(...); fi] *)
Definition shell_preserve_paths (preserve_nl : string) : list string :=
  if String.eqb preserve_nl "" then default_preservePaths else nl_lines preserve_nl.

Fixpoint join_nl (l : list string) : string :=
  match l with
  | [] => ""
  | [x] => x
  | x :: t => x ++ String newline (join_nl t)
  end.

(** uploadViaSSH: [preservePaths = []] and
    [PRESERVE_NL: preservePaths.length ? preservePaths.join("\n") : ""]. *)
Definition ssh_PRESERVE_NL (o : option (list string)) : string :=
  let preservePaths := match o with Some l => l | None => [] end in
  if nonempty preservePaths then join_nl preservePaths else "".

(* ------------------------------------------------------------------ *)
(** ** Webroot resolution *)

Definition is_ws (c : ascii) : bool :=
  let n := nat_of_ascii c in
  (Nat.eqb n 32 || Nat.eqb n 9 || Nat.eqb n 10 || Nat.eqb n 11 || Nat.eqb n 12 || Nat.eqb n 13
   || Nat.eqb n 160)%bool.

Fixpoint drop_ws (l : list ascii) : list ascii :=
  match l with
  | c :: t => if is_ws c then drop_ws t else l
  | [] => []
  end.

(** [String.prototype.trim]: the white space and line terminators among the code
    units below 256 are TAB, LF, VT, FF, CR, SPACE and NO-BREAK SPACE (160). *)
Definition js_trim (s : string) : string :=
  string_of_list_ascii (rev (drop_ws (rev (drop_ws (list_ascii_of_string s))))).

Definition layout (u d : string) : string := "/home/" ++ u ++ "/web/" ++ d ++ "/public_html".

(** remote-ftp.ts: [const u = (user || "user").trim()]. *)
Definition ftp_deriveDefaultWebroot (user domain : string) : string :=
  layout (js_trim (if String.eqb user "" then "user" else user)) domain.

(** remote-sftp.ts. *)
Definition sftp_deriveDefaultWebroot (user domain : string) : string := layout user domain.

(** [const resolvedWebroot = webroot ?? (domain ? deriveDefaultWebroot(user, domain) : undefined);
     if (!resolvedWebroot) throw ...]; [None] is the thrown error. *)
Definition resolvedWebroot_with (derive : string -> string -> string)
    (webroot domain : option string) (user : string) : option string :=
  let r := match webroot with
           | Some w => Some w
           | None => match domain with
                     | Some d => if String.eqb d "" then None else Some (derive user d)
                     | None => None
                     end
           end in
  match r with
  | Some w => if String.eqb w "" then None else Some w
  | None => None
  end.

Definition ftp_resolvedWebroot := resolvedWebroot_with ftp_deriveDefaultWebroot.
Definition sftp_resolvedWebroot := resolvedWebroot_with sftp_deriveDefaultWebroot.

(** remote-ssh.ts: [WEBROOT = webroot ?? deriveDefaultWebroot(user ?? "", domain)], where
    the derivation throws without a domain and uses [user || "user"]. *)
Definition ssh_webroot (webroot domain : option string) (user : option string) : option string :=
  match webroot with
  | Some w => Some w
  | None =>
      match domain with
      | Some d => if String.eqb d "" then None
                  else let u := match user with Some u => u | None => "" end in
                       Some (layout (if String.eqb u "" then "user" else u) d)
      | None => None
      end
  end.

(** remote.ts: [autoWebroot(user, domain)], the last candidate of the CLI's
    [pick(args.webroot, target.webroot, autoWebroot(user, domain))]. *)
Definition autoWebroot (user domain : option string) : option string :=
  match user, domain with
  | Some u, Some d => if String.eqb u "" || String.eqb d "" then None else Some (layout u d)
  | _, _ => None
  end.

(* ------------------------------------------------------------------ *)
(** ** Shell deploy: health check dispatch and [rollback()] of upload.sh *)

Fixpoint assoc {A} (k : string) (l : list (string * A)) : option A :=
  match l with
  | [] => None
  | (k', v) :: t => if String.eqb k k' then Some v else assoc k t
  end.

Definition assoc_del {A} (k : string) (l : list (string * A)) : list (string * A) :=
  filter (fun kv => negb (String.eqb k (fst kv))) l.

Definition assoc_set {A} (k : string) (v : A) (l : list (string * A)) : list (string * A) :=
  (k, v) :: assoc_del k l.

(** Server directories, each with the list of files of its tree, and the tar
    archives, each a list of top-level entries with their trees. *)
Record FsState := mkFs {
  tree : list (string * list string);
  archives : list (string * list (string * list string))
}.

Inductive shcmd : Type :=
  | ShMv (src dst : string)          (* mv SRC DST *)
  | ShMkdirP (p : string)            (* mkdir -p P *)
  | ShTarC (dir archive name : string)  (* tar -C DIR -czf ARCHIVE NAME *)
  | ShTarX (dir archive : string)    (* tar -C DIR -xzf ARCHIVE *)
  | ShRmRf (p : string).             (* rm -rf P / rm -f P *)

Definition is_rename (c : shcmd) : bool := match c with ShMv _ _ => true | _ => false end.

(** [${s%/*}]: drop the last [/] and what follows it. *)
Definition strip_last (s : string) : string :=
  match drop_to_slash (rev (list_ascii_of_string s)) with
  | None => s
  | Some r => string_of_list_ascii (rev r)
  end.

Fixpoint take_to_slash (l : list ascii) : list ascii :=
  match l with
  | [] => []
  | c :: t => if Ascii.eqb c slash then [] else c :: take_to_slash t
  end.

Definition basename (s : string) : string :=
  string_of_list_ascii (rev (take_to_slash (rev (list_ascii_of_string s)))).

Definition exec_cmd (s : FsState) (c : shcmd) : option FsState :=
  match c with
  | ShMv src dst =>
      match assoc src (tree s) with
      | None => None
      | Some v =>
          let dst' := match assoc dst (tree s) with
                      | Some _ => dst ++ "/" ++ basename src
                      | None => dst
                      end in
          Some (mkFs (assoc_set dst' v (assoc_del src (tree s))) (archives s))
      end
  | ShMkdirP p =>
      match assoc p (tree s) with
      | Some _ => Some s
      | None => Some (mkFs (assoc_set p [] (tree s)) (archives s))
      end
  | ShTarC dir a name =>
      match assoc (dir ++ "/" ++ name) (tree s) with
      | None => None
      | Some v => Some (mkFs (tree s) (assoc_set a [(name, v)] (archives s)))
      end
  | ShTarX dir a =>
      match assoc a (archives s) with
      | None => None
      | Some ents =>
          Some (mkFs (fold_left (fun t nv => assoc_set (dir ++ "/" ++ fst nv) (snd nv) t)
                                ents (tree s))
                     (archives s))
      end
  | ShRmRf p => Some (mkFs (assoc_del p (tree s)) (archives s))
  end.

(** A [&&] chain: stops at the first failing command. *)
Fixpoint exec_chain (s : FsState) (cs : list shcmd) : option FsState :=
  match cs with
  | [] => Some s
  | c :: t => match exec_cmd s c with Some s' => exec_chain s' t | None => None end
  end.

(** The backup step: [tar -C "${WEBROOT%/*}" -czf "$BACKUP_PATH" "public_html"]. *)
Definition backup_cmds (webroot backupPath : string) : list shcmd :=
  [ShTarC (strip_last webroot) backupPath "public_html"].

(** [rollback()]: [mv WEBROOT FAILED_DIR && mkdir -p ${WEBROOT%/*} &&
    tar -C ${WEBROOT%/*} -xzf BACKUP_PATH], then [rm -rf FAILED_DIR] unless
    [KEEP_FAILED_DIR=1]. *)
Definition rollback_cmds (webroot failedDir backupPath keepFailed : string) : list shcmd :=
  ([ShMv webroot failedDir; ShMkdirP (strip_last webroot); ShTarX (strip_last webroot) backupPath]
   ++ (if String.eqb keepFailed "1" then [] else [ShRmRf failedDir]))%list.

(** The health check dispatch at the end of upload.sh. *)
Definition healthcheck_dispatch (dryRun : string) (healthy : bool)
    (rollbackOnFail keepFailed webroot failedDir backupPath remoteZip filterRemote
     releaseDir : string) : list shcmd :=
  if negb (String.eqb dryRun "1") then
    if healthy then [ShRmRf remoteZip; ShRmRf filterRemote; ShRmRf releaseDir]
    else if String.eqb rollbackOnFail "1"
         then rollback_cmds webroot failedDir backupPath keepFailed
         else []
  else [].

(* ------------------------------------------------------------------ *)
(** ** The confirmation gate [maybeConfirm] (remote-ftp.ts, remote-sftp.ts) *)

Inductive confirm_mode : Type := ConfirmAuto | ConfirmAlways | ConfirmNever.

Inductive gate : Type := GateProceed | GatePrompt | GateThrow.

Definition confirm_eqb (a b : confirm_mode) : bool :=
  match a, b with
  | ConfirmAuto, ConfirmAuto | ConfirmAlways, ConfirmAlways
  | ConfirmNever, ConfirmNever => true
  | _, _ => false
  end.

(** [interactive = process.stdin.isTTY && process.stdout.isTTY]. *)
Definition maybeConfirm (confirm : confirm_mode) (interactive yes : bool) : gate :=
  if confirm_eqb confirm ConfirmNever then GateProceed
  else if negb interactive && negb yes then GateThrow
  else if interactive && (confirm_eqb confirm ConfirmAlways
                          || (confirm_eqb confirm ConfirmAuto && negb yes))
       then GatePrompt
       else GateProceed.

Inductive entry_point : Type := FtpUpload | FtpRestore | SftpUpload | SftpRestore.

Inductive action : Type :=
  | AConnect     (* client.access / sftp.connect *)
  | ADownload    (* sftp.list(remoteBackupDir) and sftp.fastGet of the backup *)
  | APrompt      (* the preview and "Proceed? [y/N]" *)
  | AThrow       (* the run rejects *)
  | AMutate.     (* the first mutating call: ensureDir of the webroot *)

(** What each entry point does with the server before [maybeConfirm]: only
    [restoreViaSFTP] connects first (to fetch a remote backup). *)
Definition pre_gate (ep : entry_point) (localBackup : bool) : list action :=
  match ep with
  | SftpRestore => AConnect :: (if localBackup then [] else [ADownload])
  | _ => []
  end.

Definition connects_after_gate (ep : entry_point) : bool :=
  match ep with SftpRestore => false | _ => true end.

(** The server-facing actions of a run up to its first mutation; [accepted] is
    the operator's answer to the prompt. *)
Definition entry_trace (ep : entry_point) (localBackup : bool) (confirm : confirm_mode)
    (interactive yes accepted : bool) : list action :=
  let after := ((if connects_after_gate ep then [AConnect] else []) ++ [AMutate])%list in
  (pre_gate ep localBackup ++
  match maybeConfirm confirm interactive yes with
  | GateThrow => [AThrow]
  | GatePrompt => APrompt :: (if accepted then after else [AThrow])
  | GateProceed => after
  end)%list.

(* ------------------------------------------------------------------ *)
(** ** Upload pool size *)

(** [x | 0] on an integral number: ToInt32. *)
Definition toInt32 (z : Z) : Z := ((z + 2 ^ 31) mod 2 ^ 32) - 2 ^ 31.

(** [Math.max(1, Math.min(16, opts.concurrency | 0))] in [uploadMany] and [uploadManySftp]. *)
Definition uploadMany_limit (concurrency : Z) : Z := Z.max 1 (Z.min 16 (toInt32 concurrency)).

(** [concurrency = 4] by default. *)
Definition resolve_concurrency (o : option Z) : Z := match o with Some c => c | None => 4 end.

(** FTP: [const effConc = 1; await uploadMany(..., { concurrency: effConc, dryRun })]. *)
Definition ftp_pool_limit (concurrency : option Z) : Z := uploadMany_limit 1.

(** SFTP: [uploadManySftp(..., { concurrency, dryRun })]. *)
Definition sftp_pool_limit (concurrency : option Z) : Z :=
  uploadMany_limit (resolve_concurrency concurrency).

(** [while (active < limit && idx < relFiles.length) { idx++; active++; ... }]:
    the workers started by one call of [next()]. *)
Fixpoint pool_fill (fuel : nat) (limit : Z) (active idx len : nat) : nat * nat :=
  match fuel with
  | O => (active, idx)
  | S f => if Z.ltb (Z.of_nat active) limit && Nat.ltb idx len
           then pool_fill f limit (S active) (S idx) len
           else (active, idx)
  end.

(* ------------------------------------------------------------------ *)
(** ** Command-line helpers of remote-ftp.ts and remote-sftp.ts *)

(** [t.startsWith("--")] *)
Definition is_flag (t : string) : bool := String.prefix "--" t.

(** [t.replace(/^--/, "")] *)
Definition strip_dashes (t : string) : string :=
  match t with
  | String a (String b k) => if Ascii.eqb a "-" && Ascii.eqb b "-" then k else t
  | _ => t
  end.

(** A value of the [Record<string, string | true>] built by [parseArgs]. *)
Inductive argval : Type := ArgStr (s : string) | ArgTrue.

(** [out[key] = v] on the object literal [out]: it creates or replaces the own
    property [key], except for [key = "__proto__"], where it calls the
    [Object.prototype.__proto__] setter, which ignores a string or [true]. The
    model keeps the own properties of [out] as an association list. *)
Definition obj_set (k : string) (v : argval) (out : list (string * argval))
    : list (string * argval) :=
  if String.eqb k "__proto__" then out else assoc_set k v out.

(** The loop of [parseArgs(xs)] (remote-ftp.ts, remote-sftp.ts) from index [i] on:
    a flag takes the next item as its value unless that item is a flag too, and
    [out[key] = ...] replaces an earlier binding of [key]. *)
Fixpoint parseArgs_from (out : list (string * argval)) (xs : list string)
    : list (string * argval) :=
  match xs with
  | [] => out
  | t :: rest =>
      if is_flag t then
        match rest with
        | v :: rest' =>
            if is_flag v then parseArgs_from (obj_set (strip_dashes t) ArgTrue out) rest
            else parseArgs_from (obj_set (strip_dashes t) (ArgStr v) out) rest'
        | [] => parseArgs_from (obj_set (strip_dashes t) ArgTrue out) rest
        end
      else parseArgs_from out rest
  end.

Definition parseArgs (xs : list string) : list (string * argval) := parseArgs_from [] xs.

(** [const get = (k, d?) => (k in args ? String(args[k]) : d)]; [String(true)] is ["true"].
    The keys read this way ([yes], [confirm], [host], ...) are no property of
    [Object.prototype], so [k in args] is an own property of [args]. *)
Definition arg_get (args : list (string * argval)) (k : string) : option string :=
  match assoc k args with
  | Some (ArgStr s) => Some s
  | Some ArgTrue => Some "true"
  | None => None
  end.

Definition is_sep (c : ascii) : bool := Ascii.eqb c "," || Ascii.eqb c newline.

(** [s.split(/[\n,]+/)]: every maximal run of separators cuts [s]; [cur] is the
    piece being read (reversed), [insep] tells that the previous character was a
    separator. *)
Fixpoint split_runs_from (insep : bool) (cur : list ascii) (l : list ascii)
    : list (list ascii) :=
  match l with
  | [] => [rev cur]
  | c :: t =>
      if is_sep c then
        if insep then split_runs_from true cur t
        else rev cur :: split_runs_from true [] t
      else split_runs_from false (c :: cur) t
  end.

Definition split_runs (s : string) : list string :=
  map string_of_list_ascii (split_runs_from false [] (list_ascii_of_string s)).

(** [.map(x => x.trim()).filter(Boolean)] *)
Definition trim_nonempty (l : list string) : list string :=
  filter (fun x => negb (String.eqb x "")) (map js_trim l).

(** remote-ftp.ts (and remote.ts): [split(v)]; [None] is [undefined] or [null]. *)
Definition ftp_split (v : option string) : option (list string) :=
  match v with
  | None => None
  | Some v =>
      let s := js_trim v in
      if String.eqb s "" then None else Some (trim_nonempty (split_runs s))
  end.

(** remote-sftp.ts: [if (!v) return undefined; return v.split(/[\n,]+/)...]. *)
Definition sftp_split (v : option string) : option (list string) :=
  match v with
  | None => None
  | Some v => if String.eqb v "" then None else Some (trim_nonempty (split_runs v))
  end.

(** [String.prototype.toLowerCase] on a code unit below 256: [A-Z] and the
    Latin-1 capitals 192-222 but the multiplication sign 215 move up by 32; every
    other unit is its own lower case. *)
Definition lower (c : ascii) : ascii :=
  let n := nat_of_ascii c in
  if (Nat.leb 65 n && Nat.leb n 90) || (Nat.leb 192 n && Nat.leb n 222 && negb (Nat.eqb n 215))
  then ascii_of_nat (n + 32) else c.

Definition js_lower (s : string) : string :=
  string_of_list_ascii (map lower (list_ascii_of_string s)).

(** [truthyEnv(v)] (remote-ftp.ts) and [truthy(v)] (remote-sftp.ts); [None] is
    [undefined] or [null]. *)
Definition truthyEnv (v : option string) : bool :=
  match v with
  | None => false
  | Some v =>
      let s := js_lower v in
      String.eqb s "1" || String.eqb s "true" || String.eqb s "yes" || String.eqb s "y"
  end.

(** [cli()] (remote-ftp.ts), [cliUploadSFTP] and [cliRestoreSFTP]:
    [truthyEnv(get("yes")) || truthyEnv(process.env.YES) || truthyEnv(process.env.FORCE)]. *)
Definition cli_yes (args : list (string * argval)) (envYES envFORCE : option string) : bool :=
  truthyEnv (arg_get args "yes") || truthyEnv envYES || truthyEnv envFORCE.

(** [cliRestoreFTP]: [truthyEnv(args["yes"]) || truthyEnv(process.env.YES)]. *)
Definition ftp_restore_cli_yes (args : list (string * argval)) (envYES envFORCE : option string)
    : bool :=
  truthyEnv (arg_get args "yes") || truthyEnv envYES.

(** [c === "always" || c === "never" ? c : "auto"] on the [--confirm] argument. *)
Definition cli_confirm (args : list (string * argval)) : confirm_mode :=
  match arg_get args "confirm" with
  | Some c => if String.eqb c "always" then ConfirmAlways
              else if String.eqb c "never" then ConfirmNever else ConfirmAuto
  | None => ConfirmAuto
  end.

(* ------------------------------------------------------------------ *)
(** ** [humanSize] (remote-ftp.ts, remote-sftp.ts, remote-ssh.ts) *)

Definition units : list string := ["B"; "KB"; "MB"; "GB"; "TB"].

Fixpoint uint_digits (d : Decimal.uint) : string :=
  match d with
  | Decimal.Nil => ""
  | Decimal.D0 d => "0" ++ uint_digits d
  | Decimal.D1 d => "1" ++ uint_digits d
  | Decimal.D2 d => "2" ++ uint_digits d
  | Decimal.D3 d => "3" ++ uint_digits d
  | Decimal.D4 d => "4" ++ uint_digits d
  | Decimal.D5 d => "5" ++ uint_digits d
  | Decimal.D6 d => "6" ++ uint_digits d
  | Decimal.D7 d => "7" ++ uint_digits d
  | Decimal.D8 d => "8" ++ uint_digits d
  | Decimal.D9 d => "9" ++ uint_digits d
  end.

(** Decimal digits of a non-negative integer. *)
Definition z_to_dec (z : Z) : string := uint_digits (N.to_uint (Z.to_N z)).

(** [while (n >= 1024 && i < units.length - 1) { n /= 1024; i++; }] from
    [n = bytes], [i = 0]. A file size is an integer below [2^53] and dividing it by
    1024 is exact in binary floating point, so [n] is kept as [bytes / den] with
    [den = 1024^i]; the guard [i < 4] bounds the loop by four rounds. *)
Fixpoint hs_loop (fuel : nat) (bytes den : Z) (i : nat) : Z * nat :=
  match fuel with
  | O => (den, i)
  | S f =>
      if Z.leb (1024 * den)%Z bytes && Nat.ltb i 4
      then hs_loop f bytes (den * 1024)%Z (S i)
      else (den, i)
  end.

(** [x.toFixed(d)] for [x = num / den >= 0] and [d] 0 or 1 ([frac]): the closest
    multiple of [10^-d], the larger one on a tie. *)
Definition toFixed (num den : Z) (frac : bool) : string :=
  if frac then
    let q := ((2 * num * 10 + den) / (2 * den))%Z in
    z_to_dec (q / 10)%Z ++ "." ++ z_to_dec (q mod 10)%Z
  else z_to_dec ((2 * num + den) / (2 * den))%Z.

(** [`${n.toFixed(n >= 100 || i === 0 ? 0 : 1)} ${units[i]}`] *)
Definition humanSize (bytes : Z) : string :=
  match hs_loop 4 bytes 1 0 with
  | (den, i) =>
      toFixed bytes den (negb (Z.leb (100 * den)%Z bytes || Nat.eqb i 0))
      ++ " " ++ nth i units ""
  end.

(** No put, delete or planned line in an event list. *)
Definition projections (l : list event) : Prop :=
  all_puts l = [] /\ all_deletes l = [] /\
  (forall ph, puts_in ph l = [] /\ planned_in ph l = []).

(* ================================================================== *)
(** * Proofs *)

Local Open Scope list_scope.

Lemma phase_eqb_refl : forall ph, phase_eqb ph ph = true.
Proof. destruct ph; reflexivity. Qed.

Lemma phase_eqb_eq : forall a b, phase_eqb a b = true -> a = b.
Proof. destruct a, b; simpl; congruence. Qed.

Lemma mem_In : forall x l, mem x l = true <-> In x l.
Proof.
  intros x l; unfold mem; rewrite existsb_exists; split.
  - intros [y [Hy Heq]]; apply String.eqb_eq in Heq; subst; exact Hy.
  - intros H; exists x; split; [exact H | apply String.eqb_refl].
Qed.

Lemma mem_false : forall x l, mem x l = false <-> ~ In x l.
Proof.
  intros x l; rewrite <- mem_In; destruct (mem x l); split; congruence.
Qed.

Lemma flat_map_nil : forall {A B} (f : A -> list B) l,
  (forall x, In x l -> f x = []) -> flat_map f l = [].
Proof.
  intros A B f l H; induction l as [|x l IH]; simpl; auto.
  rewrite H by (left; reflexivity); apply IH; intros; apply H; right; assumption.
Qed.

(** Every event of [ensureDirAbs] is a [mkdir] call. *)
Lemma ensureDirAbs_mkdirs : forall ph a e,
  In e (ensureDirAbs ph a) -> exists d, e = Call ph (Mkdir d).
Proof.
  intros ph a e H; unfold ensureDirAbs in H; apply in_map_iff in H.
  destruct H as [d [<- _]]; eauto.
Qed.

Lemma mkdirs_projections : forall l,
  (forall e, In e l -> exists ph d, e = Call ph (Mkdir d)) -> projections l.
Proof.
  intros l H; repeat split; try intros ph; apply flat_map_nil;
    intros e He; destruct (H e He) as [ph' [d ->]]; reflexivity.
Qed.

Lemma ensureDirAbs_projections : forall ph a, projections (ensureDirAbs ph a).
Proof.
  intros ph a; apply mkdirs_projections; intros e He.
  destruct (ensureDirAbs_mkdirs _ _ _ He) as [d ->]; eauto.
Qed.

Lemma sftp_upload_one_all_puts : forall w dry ph rel,
  all_puts (sftp_upload_one w dry ph rel) = if dry then [] else [rel].
Proof.
  intros w dry ph rel; unfold sftp_upload_one; destruct dry; [reflexivity|].
  unfold all_puts; rewrite flat_map_app.
  destruct (ensureDirAbs_projections ph (posix_dirname (joinRemote w rel))) as [H _].
  unfold all_puts in H; rewrite H; reflexivity.
Qed.

Lemma sftp_upload_one_puts_in : forall w dry ph ph' rel,
  puts_in ph' (sftp_upload_one w dry ph rel) =
  if dry then [] else if phase_eqb ph' ph then [rel] else [].
Proof.
  intros w dry ph ph' rel; unfold sftp_upload_one; destruct dry; [reflexivity|].
  unfold puts_in; rewrite flat_map_app.
  destruct (ensureDirAbs_projections ph (posix_dirname (joinRemote w rel))) as [_ [_ H]].
  destruct (H ph') as [H1 _]; unfold puts_in in H1; rewrite H1; simpl.
  destruct (phase_eqb ph' ph); reflexivity.
Qed.

Lemma sftp_upload_one_deletes : forall w dry ph rel,
  all_deletes (sftp_upload_one w dry ph rel) = [].
Proof.
  intros w dry ph rel; unfold sftp_upload_one; destruct dry; [reflexivity|].
  unfold all_deletes; rewrite flat_map_app.
  destruct (ensureDirAbs_projections ph (posix_dirname (joinRemote w rel))) as [_ [H _]].
  unfold all_deletes in H; rewrite H; reflexivity.
Qed.

Lemma sftp_upload_one_planned : forall w dry ph ph' rel,
  planned_in ph' (sftp_upload_one w dry ph rel) =
  if dry then (if phase_eqb ph' ph then [rel] else []) else [].
Proof.
  intros w dry ph ph' rel; unfold sftp_upload_one; destruct dry.
  - simpl; destruct (phase_eqb ph' ph); reflexivity.
  - unfold planned_in; rewrite flat_map_app.
    destruct (ensureDirAbs_projections ph (posix_dirname (joinRemote w rel))) as [_ [_ H]].
    destruct (H ph') as [_ H1]; unfold planned_in in H1; rewrite H1; reflexivity.
Qed.

Lemma uploadManySftp_all_puts : forall w dry ph l,
  all_puts (uploadManySftp w dry ph l) = if dry then [] else l.
Proof.
  intros w dry ph l; induction l as [|x l IH]; [destruct dry; reflexivity|].
  unfold uploadManySftp in *; simpl; unfold all_puts in *; rewrite flat_map_app.
  fold (all_puts (sftp_upload_one w dry ph x)); rewrite sftp_upload_one_all_puts, IH.
  destruct dry; reflexivity.
Qed.

Lemma uploadManySftp_puts_in : forall w dry ph ph' l,
  puts_in ph' (uploadManySftp w dry ph l) =
  if dry then [] else if phase_eqb ph' ph then l else [].
Proof.
  intros w dry ph ph' l; induction l as [|x l IH].
  - destruct dry; [|destruct (phase_eqb ph' ph)]; reflexivity.
  - unfold uploadManySftp in *; simpl; unfold puts_in in *; rewrite flat_map_app.
    fold (puts_in ph' (sftp_upload_one w dry ph x)); rewrite sftp_upload_one_puts_in, IH.
    destruct dry; [|destruct (phase_eqb ph' ph)]; reflexivity.
Qed.

Lemma uploadManySftp_deletes : forall w dry ph l,
  all_deletes (uploadManySftp w dry ph l) = [].
Proof.
  intros w dry ph l; induction l as [|x l IH]; [reflexivity|].
  unfold uploadManySftp in *; simpl; unfold all_deletes in *; rewrite flat_map_app.
  fold (all_deletes (sftp_upload_one w dry ph x)); rewrite sftp_upload_one_deletes, IH.
  reflexivity.
Qed.

Lemma uploadManySftp_planned : forall w dry ph ph' l,
  planned_in ph' (uploadManySftp w dry ph l) =
  if dry then (if phase_eqb ph' ph then l else []) else [].
Proof.
  intros w dry ph ph' l; induction l as [|x l IH].
  - destruct dry; [destruct (phase_eqb ph' ph)|]; reflexivity.
  - unfold uploadManySftp in *; simpl; unfold planned_in in *; rewrite flat_map_app.
    fold (planned_in ph' (sftp_upload_one w dry ph x)); rewrite sftp_upload_one_planned, IH.
    destruct dry; [destruct (phase_eqb ph' ph)|]; reflexivity.
Qed.

Lemma setup_projections : forall tr w, projections (setup_webroot tr w).
Proof.
  intros [|] w; [repeat split; reflexivity | apply ensureDirAbs_projections].
Qed.

Lemma sftp_prune_projections : forall dry ds, projections (sftp_prune dry ds).
Proof.
  intros dry ds; repeat split; try intros ph; apply flat_map_nil; intros e He;
    unfold sftp_prune in He; apply in_flat_map in He; destruct He as [d [_ Hd]];
    destruct dry; simpl in Hd; first [contradiction | destruct Hd as [<-|[]]; reflexivity].
Qed.

Lemma projections_app : forall l1 l2, projections l1 -> projections l2 -> projections (l1 ++ l2).
Proof.
  intros l1 l2 [P1 [D1 Q1]] [P2 [D2 Q2]]; split; [|split].
  - unfold all_puts in *; rewrite flat_map_app, P1, P2; reflexivity.
  - unfold all_deletes in *; rewrite flat_map_app, D1, D2; reflexivity.
  - intros ph; destruct (Q1 ph) as [A A']; destruct (Q2 ph) as [B B']; split.
    + unfold puts_in in *; rewrite flat_map_app, A, B; reflexivity.
    + unfold planned_in in *; rewrite flat_map_app, A', B'; reflexivity.
Qed.

Lemma delete_steps_proj : forall dry l,
  all_puts (flat_map (delete_step dry) l) = [] /\
  all_deletes (flat_map (delete_step dry) l) = (if dry then [] else l) /\
  (forall ph, puts_in ph (flat_map (delete_step dry) l) = []) /\
  (forall ph, planned_in ph (flat_map (delete_step dry) l) =
              if dry then (if phase_eqb ph PhaseADelete then l else []) else []).
Proof.
  intros dry l; induction l as [|x l [IH1 [IH2 [IH3 IH4]]]].
  - repeat split; try intros ph; destruct dry; try destruct (phase_eqb ph PhaseADelete); reflexivity.
  - simpl; repeat split; try intros ph.
    + unfold all_puts in *; rewrite flat_map_app, IH1; destruct dry; reflexivity.
    + unfold all_deletes in *; rewrite flat_map_app, IH2; destruct dry; reflexivity.
    + unfold puts_in in *; rewrite flat_map_app, IH3; destruct dry; reflexivity.
    + unfold planned_in in *; rewrite flat_map_app, IH4; destruct dry; simpl;
        destruct (phase_eqb ph PhaseADelete); reflexivity.
Qed.

(** The length guards of Phase A and Phase B change no call: an empty list
    uploads nothing, and [newPreserve] is empty when [localPreserve] is. *)
Lemma sftp_body_unguarded : forall fl pr loc w dry t,
  sftp_body fl pr loc w dry t =
  flat_map (delete_step dry) (toDelete pr loc t)
  ++ uploadManySftp w dry PhaseAUpload (localNonPreserve pr loc)
  ++ uploadManySftp w dry PhaseBMerge (newPreserve pr loc t).
Proof.
  intros fl pr loc w dry t; unfold sftp_body.
  f_equal; f_equal.
  - destruct (localNonPreserve pr loc); reflexivity.
  - destruct fl.
    + destruct (localPreserve pr loc) eqn:E; [|reflexivity].
      unfold newPreserve; rewrite E; reflexivity.
    + destruct (newPreserve pr loc t); reflexivity.
Qed.

Lemma all_puts_app : forall a b, all_puts (a ++ b) = all_puts a ++ all_puts b.
Proof. intros; apply flat_map_app. Qed.
Lemma all_deletes_app : forall a b, all_deletes (a ++ b) = all_deletes a ++ all_deletes b.
Proof. intros; apply flat_map_app. Qed.
Lemma puts_in_app : forall ph a b, puts_in ph (a ++ b) = puts_in ph a ++ puts_in ph b.
Proof. intros; apply flat_map_app. Qed.
Lemma planned_in_app : forall ph a b, planned_in ph (a ++ b) = planned_in ph a ++ planned_in ph b.
Proof. intros; apply flat_map_app. Qed.

Lemma sftp_tail_projections : forall fl pr dry t,
  projections (match fl with
               | Deploy => sftp_prune dry (remoteDirsDesc pr t)
               | Restore => []
               end).
Proof.
  intros [|] pr dry t; [apply sftp_prune_projections | repeat split; reflexivity].
Qed.

(** The projections of a whole SFTP run. *)
Lemma sftp_run_projections : forall fl pr loc w dry t,
  let evs := sftp_run fl pr loc w dry t in
  all_puts evs = (if dry then [] else localNonPreserve pr loc ++ newPreserve pr loc t) /\
  all_deletes evs = (if dry then [] else toDelete pr loc t) /\
  puts_in PhaseAUpload evs = (if dry then [] else localNonPreserve pr loc) /\
  puts_in PhaseBMerge evs = (if dry then [] else newPreserve pr loc t) /\
  planned_in PhaseADelete evs = (if dry then toDelete pr loc t else []) /\
  planned_in PhaseAUpload evs = (if dry then localNonPreserve pr loc else []) /\
  planned_in PhaseBMerge evs = (if dry then newPreserve pr loc t else []).
Proof.
  intros fl pr loc w dry t evs.
  pose proof (sftp_tail_projections fl pr dry t) as Hpr.
  unfold evs, sftp_run; revert Hpr.
  generalize (match fl with
              | Deploy => sftp_prune dry (remoteDirsDesc pr t)
              | Restore => []
              end) as pr_evs.
  intros pr_evs [P1 [D1 Q1]].
  destruct (setup_projections SFTP w) as [P0 [D0 Q0]].
  destruct (delete_steps_proj dry (toDelete pr loc t)) as [E1 [E2 [E3 E4]]].
  rewrite sftp_body_unguarded.
  rewrite !all_puts_app, !all_deletes_app, !puts_in_app, !planned_in_app.
  rewrite P0, D0, P1, D1, E1, E2, !E3, !E4.
  rewrite !uploadManySftp_all_puts, !uploadManySftp_deletes, !uploadManySftp_puts_in,
    !uploadManySftp_planned.
  destruct (Q0 PhaseAUpload) as [QA0 QA0'], (Q0 PhaseBMerge) as [QB0 QB0'],
           (Q0 PhaseADelete) as [_ QD0'].
  destruct (Q1 PhaseAUpload) as [QA1 QA1'], (Q1 PhaseBMerge) as [QB1 QB1'],
           (Q1 PhaseADelete) as [_ QD1'].
  rewrite QA0, QA0', QB0, QB0', QD0', QA1, QA1', QB1, QB1', QD1'.
  destruct dry; simpl; rewrite ?app_nil_r; repeat split; reflexivity.
Qed.

(** Scenario A of the spec. *)
Example scenarioA :
  let remote := mkTree ["a.txt"; "uploads/x.jpg"; "stale.txt"] ["uploads"] in
  let evs := sftp_run Deploy ["uploads/"] ["a.txt"; "uploads/x.jpg"] "/w" false remote in
  all_deletes evs = ["stale.txt"] /\ all_puts evs = ["a.txt"].
Proof. vm_compute. split; reflexivity. Qed.

(** ** Effect of an SFTP run on the remote files *)

Lemma apply_events_app : forall t a b,
  apply_events t (a ++ b) = apply_events (apply_events t a) b.
Proof. intros; unfold apply_events; apply fold_left_app. Qed.


Lemma setup_webroot_setup : forall tr w e,
  In e (setup_webroot tr w) -> exists c, e = Call Setup c.
Proof.
  intros [|] w e H; simpl in H.
  - destruct H as [<-|[]]; eauto.
  - destruct (ensureDirAbs_mkdirs _ _ _ H) as [d ->]; eauto.
Qed.

Lemma apply_call_files : forall t c,
  (forall p, c <> Put p) -> (forall p, c <> Delete p) -> files (apply_call t c) = files t.
Proof.
  intros t c HP HD; destruct c as [p|p|p|p|p|p]; simpl; try reflexivity.
  - exfalso; exact (HP p eq_refl).
  - exfalso; exact (HD p eq_refl).
  - destruct (is_empty_dir t p); reflexivity.
Qed.

Lemma apply_events_neutral : forall l t,
  all_puts l = [] -> all_deletes l = [] -> files (apply_events t l) = files t.
Proof.
  induction l as [|e l IH]; intros t HP HD; [reflexivity|].
  unfold all_puts, all_deletes in *; simpl in HP, HD.
  change (e :: l) with ([e] ++ l); rewrite apply_events_app.
  destruct e as [ph c|ph rel].
  - rewrite IH by (destruct c; simpl in HP, HD; first [discriminate | assumption]).
    destruct ph; [reflexivity| | | |]; simpl; apply apply_call_files; intros p E;
      subst; discriminate.
  - rewrite IH by assumption; reflexivity.
Qed.









(** ** Membership in the partition *)

Lemma localNonPreserve_In : forall pr loc f,
  In f (localNonPreserve pr loc) <-> In f loc /\ isPreservedRel pr f = false.
Proof.
  intros; unfold localNonPreserve; rewrite filter_In, negb_true_iff; reflexivity.
Qed.

Lemma newPreserve_In : forall pr loc t f,
  In f (newPreserve pr loc t) <-> In f loc /\ isPreservedRel pr f = true /\ ~ In f (files t).
Proof.
  intros; unfold newPreserve, localPreserve; rewrite !filter_In, negb_true_iff, mem_false.
  tauto.
Qed.

Lemma toDelete_In : forall pr loc t r,
  In r (toDelete pr loc t) <->
  In r (files t) /\ isPreservedRel pr r = false /\ ~ In r (localNonPreserve pr loc).
Proof.
  intros; unfold toDelete, remoteNonPreserve.
  rewrite !filter_In, !negb_true_iff, mem_false; tauto.
Qed.


Lemma filter_all_false : forall {A} (g : A -> bool) l,
  (forall x, In x l -> g x = false) -> filter g l = [].
Proof.
  intros A g l H; induction l as [|x l IH]; simpl; [reflexivity|].
  rewrite H by (left; reflexivity); apply IH; intros; apply H; right; assumption.
Qed.

(** An SFTP run never puts a preserved path that the remote listing contains. *)
Lemma preserved_present_not_put : forall fl pr loc w dry t p,
  isPreservedRel pr p = true -> In p (files t) ->
  ~ In p (all_puts (sftp_run fl pr loc w dry t)).
Proof.
  intros fl pr loc w dry t p Hp Ht.
  destruct (sftp_run_projections fl pr loc w dry t) as [HP _]; simpl in HP; rewrite HP.
  destruct dry; [intros []|].
  rewrite in_app_iff, localNonPreserve_In, newPreserve_In; intuition congruence.
Qed.




(** ** Every event of a dry SFTP run after the webroot set-up is a planned line *)

Lemma sftp_prune_dry : forall ds, sftp_prune true ds = [].
Proof. intros; apply flat_map_nil; reflexivity. Qed.

Lemma sftp_body_dry_planned : forall fl pr loc w t e,
  In e (sftp_body fl pr loc w true t) -> exists ph rel, e = Planned ph rel.
Proof.
  intros fl pr loc w t e H; rewrite sftp_body_unguarded in H.
  rewrite !in_app_iff in H; unfold uploadManySftp in H; rewrite !in_flat_map in H.
  destruct H as [[x [_ Hx]]|[[x [_ Hx]]|[x [_ Hx]]]]; simpl in Hx;
    destruct Hx as [<-|[]]; eauto.
Qed.


(* ================================================================== *)
(** * The specification's claims *)

(** C1 counterexample: an FTP deploy with the default preserve rules. The remote
    holds the preserved file uploads/uploads/new.jpg in the directories uploads and
    uploads/uploads, and the release holds uploads/new.jpg, which the remote lacks.
    Phase B runs [ensureDir("uploads")], which leaves the client in uploads, and
    then [uploadFrom(local, "uploads/new.jpg")], which the server resolves against
    that directory: it stores uploads/uploads/new.jpg over the preserved file, and
    the run completes. The shell restore (restore.sh, an [rsync -a --delete] of the
    backup with no filter) also transfers a preserved path present remotely whose
    content differs from the backup's. *)
Lemma ftp_merge_overwrites_preserved :
  let t := mkTree ["uploads/uploads/new.jpg"] ["uploads"; "uploads/uploads"] in
  let r := ftp_run Deploy default_preservePaths ["uploads/new.jpg"] "/w" false t in
  isPreservedRel default_preservePaths "uploads/uploads/new.jpg" = true /\
  In "uploads/uploads/new.jpg" (files t) /\
  puts_in PhaseBMerge (fst r) = ["uploads/new.jpg"] /\
  option_map fstored (snd r) = Some ["uploads/uploads/new.jpg"] /\
  isPreservedRel default_preservePaths "uploads/x.jpg" = true /\
  mem "uploads/x.jpg" (map fst [("uploads/x.jpg", 2)]) = true /\
  mem "uploads/x.jpg"
      (all_puts (restore_sh_events false [("uploads/x.jpg", 1)] [("uploads/x.jpg", 2)])) = true.
Proof.
  cbv zeta; split; [reflexivity|]; split; [left; reflexivity|].
  vm_compute; repeat split.
Qed.

(** C2 counterexample: FTP deploys whose Phase A uploads do not land at their
    paths. On an empty remote, the release css/a.css and index.html: after
    [ensureDir("css")] the client is in css, the server refuses
    [uploadFrom(local, "css/a.css")] (there is no css/css), and the run rejects
    with index.html never uploaded. On a remote with the directories a and a/a,
    the release a/x.txt and b.txt: the run completes, and the remote then holds
    a/a/x.txt and a/b.txt, neither of the release's paths. *)
Lemma ftp_phaseA_misplaces_uploads :
  ftp_run Deploy default_preservePaths ["css/a.css"; "index.html"] "/w" false (mkTree [] []) =
    ([Call Setup (EnsureDir "/w"); Call PhaseAUpload (EnsureDir "css");
      Call PhaseAUpload (Put "css/a.css")], None) /\
  let r := ftp_run Deploy default_preservePaths ["a/x.txt"; "b.txt"] "/w" false
                   (mkTree [] ["a"; "a/a"]) in
  puts_in PhaseAUpload (fst r) = ["a/x.txt"; "b.txt"] /\
  ftp_files_after r = Some ["a/a/x.txt"; "a/b.txt"].
Proof. vm_compute; repeat split. Qed.

(** C3 counterexample: FTP deploys of the release uploads/new.jpg, a new
    preserved file. On an empty remote the Phase B upload is refused (the client
    is in uploads after [ensureDir], and there is no uploads/uploads) and the run
    rejects. On a remote with the directories uploads and uploads/uploads, the
    first run completes but writes uploads/uploads/new.jpg, so a second run on the
    resulting remote puts uploads/new.jpg in Phase B again. *)
Lemma ftp_rerun_merges_again :
  snd (ftp_run Deploy default_preservePaths ["uploads/new.jpg"] "/w" false (mkTree [] []))
    = None /\
  let r1 := ftp_run Deploy default_preservePaths ["uploads/new.jpg"] "/w" false
                    (mkTree [] ["uploads"; "uploads/uploads"]) in
  puts_in PhaseBMerge (fst r1) = ["uploads/new.jpg"] /\
  ftp_files_after r1 = Some ["uploads/uploads/new.jpg"] /\
  match snd r1 with
  | Some s => puts_in PhaseBMerge
                (fst (ftp_run Deploy default_preservePaths ["uploads/new.jpg"] "/w" false
                              (ftree s))) = ["uploads/new.jpg"]
  | None => False
  end.
Proof. vm_compute; repeat split. Qed.

(** C4 counterexample: a dry FTP deploy issues the mutating [ensureDir] of the
    webroot, and a dry SFTP deploy its [mkdir]; and a dry FTP deploy of css/a.css
    and index.html on an empty remote plans two Phase A uploads, while the real
    run issues one put, which fails, and rejects. *)
Lemma dry_run_ensures_webroot :
  let fd := ftp_run Deploy default_preservePaths ["css/a.css"; "index.html"] "/w" true
                    (mkTree [] []) in
  let fr := ftp_run Deploy default_preservePaths ["css/a.css"; "index.html"] "/w" false
                    (mkTree [] []) in
  In (Call Setup (EnsureDir "/w")) (fst fd) /\ mutating (EnsureDir "/w") = true /\
  In (Call Setup (Mkdir "/w"))
     (sftp_run Deploy default_preservePaths ["css/a.css"; "index.html"] "/w" true
               (mkTree [] [])) /\
  mutating (Mkdir "/w") = true /\
  planned_in PhaseAUpload (fst fd) = ["css/a.css"; "index.html"] /\
  puts_in PhaseAUpload (fst fr) = ["css/a.css"] /\ snd fr = None.
Proof.
  cbv zeta; split; [vm_compute; left; reflexivity|]; split; [reflexivity|].
  split; [vm_compute; left; reflexivity|]; split; [reflexivity|].
  vm_compute; repeat split.
Qed.

(** C5 counterexample: a release of a/x.txt and b.txt deployed over FTP onto a
    remote with the directories a and a/a. The first run writes a/a/x.txt and
    a/b.txt; a second run on the resulting remote deletes both, as remote files
    absent from the release, and uploads both again. On SFTP a second deploy of a
    one-file release uploads it again in Phase A. *)
Lemma ftp_second_run_deletes :
  let loc := ["a/x.txt"; "b.txt"] in
  let r1 := ftp_run Deploy default_preservePaths loc "/w" false (mkTree [] ["a"; "a/a"]) in
  ftp_files_after r1 = Some ["a/a/x.txt"; "a/b.txt"] /\
  match snd r1 with
  | Some s =>
      let r2 := ftp_run Deploy default_preservePaths loc "/w" false (ftree s) in
      all_deletes (fst r2) = ["a/a/x.txt"; "a/b.txt"] /\
      puts_in PhaseAUpload (fst r2) = loc
  | None => False
  end /\
  puts_in PhaseAUpload
    (sftp_run Deploy default_preservePaths ["index.html"] "/w" false
       (mkTree (files_after (mkTree [] [])
                  (sftp_run Deploy default_preservePaths ["index.html"] "/w" false
                            (mkTree [] []))) [])) = ["index.html"].
Proof. vm_compute; repeat split. Qed.

(** ** Rollback helpers *)

Lemma list_ascii_of_string_append : forall a b,
  list_ascii_of_string (a ++ b) = list_ascii_of_string a ++ list_ascii_of_string b.
Proof. induction a as [|c a IH]; intros b; simpl; [reflexivity | rewrite IH; reflexivity]. Qed.

Lemma strip_last_public_html : forall par, strip_last (par ++ "/public_html") = par.
Proof.
  intros par; unfold strip_last.
  rewrite list_ascii_of_string_append, rev_app_distr; simpl.
  rewrite rev_involutive; apply string_of_list_ascii_of_string.
Qed.

Lemma assoc_del_same : forall {A} k (l : list (string * A)), assoc k (assoc_del k l) = None.
Proof.
  intros A k l; induction l as [|[k' v] l IH]; simpl; [reflexivity|].
  destruct (String.eqb k k') eqn:E; simpl; [exact IH|rewrite E; exact IH].
Qed.

Lemma assoc_del_other : forall {A} k k' (l : list (string * A)),
  k <> k' -> assoc k (assoc_del k' l) = assoc k l.
Proof.
  intros A k k' l Hne; induction l as [|[j v] l IH]; simpl; [reflexivity|].
  destruct (String.eqb k' j) eqn:E; simpl.
  - apply String.eqb_eq in E; subst j.
    apply String.eqb_neq in Hne; rewrite Hne; exact IH.
  - destruct (String.eqb k j); [reflexivity | exact IH].
Qed.

Lemma assoc_set_same : forall {A} k (v : A) l, assoc k (assoc_set k v l) = Some v.
Proof. intros; simpl; rewrite String.eqb_refl; reflexivity. Qed.

Lemma assoc_set_other : forall {A} k k' (v : A) l,
  k <> k' -> assoc k (assoc_set k' v l) = assoc k l.
Proof.
  intros A k k' v l Hne; simpl.
  destruct (String.eqb k k') eqn:E; [apply String.eqb_eq in E; contradiction|].
  apply assoc_del_other; exact Hne.
Qed.

(** [mkdir -p] leaves the directories already present as they are. *)
Lemma mkdirp_keeps : forall s p s' k v,
  exec_cmd s (ShMkdirP p) = Some s' -> assoc k (tree s) = Some v ->
  assoc k (tree s') = Some v /\ archives s' = archives s.
Proof.
  intros s p s' k v H Hk; simpl in H.
  destruct (assoc p (tree s)) eqn:Ep; injection H as <-; [auto|]; simpl.
  split; [|reflexivity].
  destruct (String.eqb k p) eqn:E; [apply String.eqb_eq in E; subst; congruence|].
  apply String.eqb_neq in E; rewrite assoc_del_other by exact E; exact Hk.
Qed.

Lemma exec_mkdirp_some : forall s p, exists s', exec_cmd s (ShMkdirP p) = Some s'.
Proof. intros s p; simpl; destruct (assoc p (tree s)); eauto. Qed.

(** C6 (amended): on the shell transport, the backup step archives the pre-deploy
    webroot [<parent>/public_html] into the backup tarball; when the real run's health
    check fails with [ROLLBACK_ON_FAIL=1], the rollback renames the webroot aside to
    the failed path (its only rename) and then recreates the webroot by extracting the
    tarball into the parent directory: the pre-deploy tree comes back as a copy of the
    archive, which stays in place, and the failed tree is kept unless
    [KEEP_FAILED_DIR] is not [1]. *)
Theorem rollback_extracts_backup : forall s0 s2 par f b keep c0 c1 zip flt rel,
  assoc (par ++ "/public_html")%string (tree s0) = Some c0 ->
  assoc b (archives s2) = Some [("public_html", c0)] ->
  assoc (par ++ "/public_html")%string (tree s2) = Some c1 ->
  assoc f (tree s2) = None ->
  f <> (par ++ "/public_html")%string ->
  let w := (par ++ "/public_html")%string in
  (exists s1, exec_chain s0 (backup_cmds w b) = Some s1 /\
              assoc b (archives s1) = Some [("public_html", c0)]) /\
  healthcheck_dispatch "0" false "1" keep w f b zip flt rel = rollback_cmds w f b keep /\
  filter is_rename (rollback_cmds w f b keep) = [ShMv w f] /\
  In (ShTarX par b) (rollback_cmds w f b keep) /\
  exists s3, exec_chain s2 (rollback_cmds w f b keep) = Some s3 /\
    assoc w (tree s3) = Some c0 /\
    assoc f (tree s3) = (if String.eqb keep "1" then Some c1 else None) /\
    assoc b (archives s3) = Some [("public_html", c0)].
Proof.
  intros s0 s2 par f b keep c0 c1 zip flt rel H0 Hb Hw Hf Hfw w.
  unfold w, backup_cmds, healthcheck_dispatch, rollback_cmds; rewrite !strip_last_public_html.
  split; [|split; [reflexivity|split; [|split]]].
  - simpl; rewrite H0; eexists; split; [reflexivity|].
    simpl; rewrite String.eqb_refl; reflexivity.
  - destruct (String.eqb keep "1"); reflexivity.
  - right; right; left; reflexivity.
  - set (s2a := mkFs (assoc_set f c1 (assoc_del (par ++ "/public_html")%string (tree s2))) (archives s2)).
    assert (Hmv : exec_cmd s2 (ShMv (par ++ "/public_html")%string f) = Some s2a)
      by (simpl; rewrite Hw, Hf; reflexivity).
    destruct (exec_mkdirp_some s2a par) as [s2b Hmk].
    assert (Hf2b : assoc f (tree s2b) = Some c1 /\ archives s2b = archives s2a).
    { apply (mkdirp_keeps s2a par); [exact Hmk|]; simpl; rewrite String.eqb_refl; reflexivity. }
    destruct Hf2b as [Hf2b Ha2b].
    set (s2c := mkFs (assoc_set (par ++ "/public_html")%string c0 (tree s2b)) (archives s2)).
    assert (Htx : exec_cmd s2b (ShTarX par b) = Some s2c)
      by (simpl; rewrite Ha2b; simpl; rewrite Hb; reflexivity).
    destruct (String.eqb keep "1").
    + exists s2c; split.
      { simpl app; cbn [exec_chain]; rewrite Hmv, Hmk, Htx; reflexivity. }
      split; [apply assoc_set_same|split].
      * unfold s2c; cbn [tree]; rewrite assoc_set_other by exact Hfw; exact Hf2b.
      * exact Hb.
    + exists (mkFs (assoc_del f (tree s2c)) (archives s2c)); split.
      { simpl app; cbn [exec_chain]; rewrite Hmv, Hmk, Htx; reflexivity. }
      split; [|split].
      * unfold s2c; cbn [tree].
        rewrite assoc_del_other by (intros E; apply Hfw; symmetry; exact E).
        apply assoc_set_same.
      * cbn [tree]; apply assoc_del_same.
      * exact Hb.
Qed.

Lemma rollback_extracts_backup_witness :
  let s0 := mkFs [("/home/u/web/d/public_html", ["index.html"])] [] in
  let s2 := mkFs [("/home/u/web/d/public_html", ["broken.html"])]
                 [("/home/u/backups/d-1.tar.gz", [("public_html", ["index.html"])])] in
  assoc ("/home/u/web/d" ++ "/public_html")%string (tree s0) = Some ["index.html"] /\
  (exists s3, exec_chain s2 (healthcheck_dispatch "0" false "1" "1" "/home/u/web/d/public_html"
                               "/home/u/tmp/failed" "/home/u/backups/d-1.tar.gz" "z" "f" "r")
              = Some s3 /\
              assoc "/home/u/web/d/public_html" (tree s3) = Some ["index.html"] /\
              assoc "/home/u/tmp/failed" (tree s3) = Some ["broken.html"]).
Proof.
  intros s0 s2.
  assert (H0 : assoc ("/home/u/web/d" ++ "/public_html")%string (tree s0) = Some ["index.html"])
    by reflexivity.
  split; [exact H0|].
  destruct (rollback_extracts_backup s0 s2 "/home/u/web/d" "/home/u/tmp/failed"
              "/home/u/backups/d-1.tar.gz" "1" ["index.html"] ["broken.html"] "z" "f" "r"
              H0 eq_refl eq_refl eq_refl ltac:(discriminate))
    as [_ [Hd [_ [_ [s3 [Hx [Hw [Hf _]]]]]]]].
  exists s3; split; [|split; [exact Hw | exact Hf]].
  rewrite <- Hd in Hx; exact Hx.
Defined.

(** C6 counterexample: the rollback brings the webroot back by extracting the backup
    tarball; no rename targets the webroot. *)
Lemma rollback_is_not_a_rename_swap :
  let cmds := healthcheck_dispatch "0" false "1" "1" "/h/public_html" "/h/failed"
                "/b/site.tar.gz" "z" "f" "r" in
  In (ShTarX "/h" "/b/site.tar.gz") cmds /\ is_rename (ShTarX "/h" "/b/site.tar.gz") = false /\
  (forall src, ~ In (ShMv src "/h/public_html") cmds).
Proof.
  vm_compute; split; [right; right; left; reflexivity|split; [reflexivity|]].
  intros src H; repeat destruct H as [H|H]; try discriminate; contradiction.
Qed.

(** C7 (amended): when no webroot is given but a non-empty domain is, every
    transport derives [/home/<u>/web/<domain>/public_html]: FTP inside the run with
    [u] the user name, or "user" when it is empty, trimmed; SFTP inside the run with
    the user name as it is; the SSH transport before starting upload.sh with the
    user name, or "user" when it is empty or missing; the CLI's [autoWebroot] with
    the user name, and nothing when it is empty or missing. A non-empty webroot
    given is used as is. FTP and SFTP throw when the webroot given is empty, and,
    with no webroot, when the domain is missing or empty. *)
Theorem webroot_inferred : forall u d, d <> "" ->
  ftp_resolvedWebroot None (Some d) u =
    Some (layout (js_trim (if String.eqb u "" then "user" else u)) d) /\
  sftp_resolvedWebroot None (Some d) u = Some (layout u d) /\
  ssh_webroot None (Some d) (Some u) = Some (layout (if String.eqb u "" then "user" else u) d) /\
  ssh_webroot None (Some d) None = Some (layout "user" d) /\
  autoWebroot (Some u) (Some d) = (if String.eqb u "" then None else Some (layout u d)) /\
  autoWebroot None (Some d) = None /\
  (forall w dm, w <> "" ->
     ftp_resolvedWebroot (Some w) dm u = Some w /\ sftp_resolvedWebroot (Some w) dm u = Some w /\
     ssh_webroot (Some w) dm (Some u) = Some w) /\
  (forall dm, ftp_resolvedWebroot (Some "") dm u = None /\
              sftp_resolvedWebroot (Some "") dm u = None) /\
  ftp_resolvedWebroot None None u = None /\ sftp_resolvedWebroot None None u = None /\
  ftp_resolvedWebroot None (Some "") u = None /\ sftp_resolvedWebroot None (Some "") u = None.
Proof.
  intros u d Hd.
  apply String.eqb_neq in Hd.
  unfold ftp_resolvedWebroot, sftp_resolvedWebroot, resolvedWebroot_with,
    ftp_deriveDefaultWebroot, sftp_deriveDefaultWebroot, ssh_webroot, autoWebroot.
  rewrite Hd, orb_false_r.
  split; [reflexivity|]; split; [reflexivity|]; split; [reflexivity|].
  split; [reflexivity|]; split; [reflexivity|]; split; [reflexivity|].
  split; [|repeat split].
  intros w dm Hw; apply String.eqb_neq in Hw; rewrite Hw; repeat split.
Qed.

Lemma webroot_inferred_witness :
  "example.com" <> "" /\
  ftp_resolvedWebroot None (Some "example.com") " alice " =
    Some (layout (js_trim (if String.eqb " alice " "" then "user" else " alice ")) "example.com") /\
  sftp_resolvedWebroot None (Some "example.com") " alice " = Some (layout " alice " "example.com") /\
  ssh_webroot None (Some "example.com") (Some " alice ") =
    Some (layout (if String.eqb " alice " "" then "user" else " alice ") "example.com") /\
  ssh_webroot None (Some "example.com") None = Some (layout "user" "example.com") /\
  autoWebroot (Some " alice ") (Some "example.com") =
    (if String.eqb " alice " "" then None else Some (layout " alice " "example.com")) /\
  autoWebroot None (Some "example.com") = None /\
  (forall w dm, w <> "" ->
     ftp_resolvedWebroot (Some w) dm " alice " = Some w /\
     sftp_resolvedWebroot (Some w) dm " alice " = Some w /\
     ssh_webroot (Some w) dm (Some " alice ") = Some w) /\
  (forall dm, ftp_resolvedWebroot (Some "") dm " alice " = None /\
              sftp_resolvedWebroot (Some "") dm " alice " = None) /\
  ftp_resolvedWebroot None None " alice " = None /\
  sftp_resolvedWebroot None None " alice " = None /\
  ftp_resolvedWebroot None (Some "") " alice " = None /\
  sftp_resolvedWebroot None (Some "") " alice " = None.
Proof.
  assert (Hd : "example.com" <> "") by discriminate.
  split; [exact Hd|].
  exact (webroot_inferred " alice " "example.com" Hd).
Defined.

(** C7 counterexample: FTP with a domain and no webroot infers the webroot. *)
Lemma ftp_infers_webroot :
  ftp_resolvedWebroot None (Some "example.com") "alice" =
  Some "/home/alice/web/example.com/public_html".
Proof. reflexivity. Qed.

Lemma toInt32_small : forall k : Z, (0 <= k < 2 ^ 31)%Z -> toInt32 k = k.
Proof.
  intros k Hk; unfold toInt32; rewrite Z.mod_small; lia.
Qed.

Lemma pool_fill_count : forall k limit a i len,
  (0 <= limit)%Z -> (Z.of_nat a <= limit)%Z -> i + k = len ->
  fst (pool_fill k limit a i len) = a + Nat.min (Z.to_nat limit - a) k.
Proof.
  induction k as [|k IH]; intros limit a i len H0 Ha Hk; simpl.
  - rewrite Nat.min_0_r; lia.
  - destruct (Z.ltb_spec (Z.of_nat a) limit) as [Hlt|Hge].
    + destruct (Nat.ltb_spec i len) as [Hi|Hi]; [|lia]; simpl.
      rewrite (IH limit (S a) (S i) len) by lia.
      assert (E : Z.to_nat limit - a = S (Z.to_nat limit - S a)) by lia.
      rewrite E; simpl; lia.
    + simpl; assert (E : Z.to_nat limit - a = 0) by lia.
      rewrite E; simpl; lia.
Qed.

(** C8 (amended): SFTP runs the Phase A and Phase B uploads through a pool of
    [max(1, min(16, c | 0))] workers for the configured concurrency [c] (default 4), so
    a configured value from 1 to 16 is honoured and the first dispatch starts
    [min(limit, files)] uploads; FTP clamps its pool to one worker whatever is
    configured. *)
Theorem pool_limits : forall (c : option Z) (n : nat),
  ftp_pool_limit c = 1%Z /\
  sftp_pool_limit c = Z.max 1 (Z.min 16 (toInt32 (resolve_concurrency c))) /\
  sftp_pool_limit None = 4%Z /\
  (forall k : Z, (1 <= k <= 16)%Z -> sftp_pool_limit (Some k) = k) /\
  (1 <= sftp_pool_limit c <= 16)%Z /\
  fst (pool_fill n (sftp_pool_limit c) 0 0 n) = Nat.min (Z.to_nat (sftp_pool_limit c)) n /\
  fst (pool_fill n (ftp_pool_limit c) 0 0 n) = Nat.min 1 n.
Proof.
  intros c n.
  assert (Hb : (1 <= sftp_pool_limit c <= 16)%Z) by (unfold sftp_pool_limit, uploadMany_limit; lia).
  split; [reflexivity|]; split; [reflexivity|]; split; [reflexivity|].
  split; [intros k Hk; unfold sftp_pool_limit, uploadMany_limit, resolve_concurrency;
          rewrite toInt32_small by lia; lia|].
  split; [exact Hb|]; split.
  - rewrite pool_fill_count by lia; rewrite Nat.sub_0_r; reflexivity.
  - rewrite pool_fill_count by (unfold ftp_pool_limit; vm_compute; try discriminate; lia).
    reflexivity.
Qed.

(** C8 counterexample: FTP with a configured concurrency of 8 uploads through one
    worker, while the pool formula gives 8. *)
Lemma ftp_clamps_concurrency : ftp_pool_limit (Some 8%Z) = 1%Z /\ uploadMany_limit 8 = 8%Z.
Proof. split; reflexivity. Qed.

(** C9 (amended): on FTP (deploy and restore) and SFTP (deploy and restore), with a
    confirm mode other than [never] in a non-interactive session without [yes], the
    run throws at the gate before any mutation; FTP deploy, FTP restore and SFTP
    deploy throw before opening any connection, while SFTP restore has already
    connected (and fetched a remote backup when no local one is given). With [never]
    the gate lets the run proceed without prompting, interactive or not. *)
Theorem confirm_gate : forall ep lb c acc,
  (c <> ConfirmNever -> entry_trace ep lb c false false acc = pre_gate ep lb ++ [AThrow]) /\
  (c <> ConfirmNever -> ~ In AMutate (entry_trace ep lb c false false acc)) /\
  (c <> ConfirmNever -> ep <> SftpRestore -> entry_trace ep lb c false false acc = [AThrow]) /\
  (forall i y, maybeConfirm ConfirmNever i y = GateProceed /\
               ~ In APrompt (entry_trace ep lb ConfirmNever i y acc) /\
               In AMutate (entry_trace ep lb ConfirmNever i y acc)).
Proof.
  intros ep lb c acc.
  assert (Hg : c <> ConfirmNever -> maybeConfirm c false false = GateThrow)
    by (intros H; destruct c; [reflexivity | reflexivity | congruence]).
  assert (Ht : c <> ConfirmNever -> entry_trace ep lb c false false acc = pre_gate ep lb ++ [AThrow])
    by (intros H; unfold entry_trace; rewrite (Hg H); reflexivity).
  split; [exact Ht|]; split; [|split].
  - intros H; rewrite (Ht H); destruct ep, lb; simpl; intuition discriminate.
  - intros H Hep; rewrite (Ht H); destruct ep; [reflexivity..|contradiction].
  - intros i y; split; [reflexivity|].
    unfold entry_trace; simpl.
    destruct ep, lb; simpl; intuition discriminate.
Qed.

(** C9 counterexample: a non-interactive SFTP restore without [yes] (confirm [auto],
    remote backup) connects and downloads the backup before the gate throws. *)
Lemma sftp_restore_connects_before_gate :
  entry_trace SftpRestore false ConfirmAuto false false true = [AConnect; ADownload; AThrow].
Proof. reflexivity. Qed.

(** C10 counterexample: the default preserve rules do not protect a preserved
    file from an FTP deploy. The remote holds storage/storage/log.txt in the
    directories storage and storage/storage, the release holds storage/log.txt:
    Phase B opens storage with [ensureDir] and stores storage/storage/log.txt over
    the preserved file. The shell restore, with no preserve rule, deletes
    robots.txt when the backup lacks it. *)
Lemma ftp_default_rules_overwrite :
  let t := mkTree ["storage/storage/log.txt"] ["storage"; "storage/storage"] in
  let r := ftp_run Deploy (resolve_preservePaths None) ["storage/log.txt"] "/w" false t in
  resolve_preservePaths None = ["uploads/"; "storage/"; ".well-known/"; "robots.txt"] /\
  isPreservedRel (resolve_preservePaths None) "storage/storage/log.txt" = true /\
  In "storage/storage/log.txt" (files t) /\
  option_map fstored (snd r) = Some ["storage/storage/log.txt"] /\
  isPreservedRel default_preservePaths "robots.txt" = true /\
  mem "robots.txt"
      (all_deletes (restore_sh_events false [("index.html", 1)]
                                      [("index.html", 1); ("robots.txt", 1)])) = true.
Proof.
  cbv zeta; split; [reflexivity|]; split; [reflexivity|]; split; [left; reflexivity|].
  vm_compute; repeat split.
Qed.

Lemma prefix_app : forall a b, String.prefix a (a ++ b)%string = true.
Proof.
  induction a as [|c a IH]; intros b; [destruct b; reflexivity|].
  simpl; destruct (ascii_dec c c) as [_|n]; [apply IH | congruence].
Qed.

Lemma is_flag_dashes : forall k, is_flag ("--" ++ k) = true.
Proof. intros; apply prefix_app. Qed.

Lemma strip_dashes_dashes : forall k, strip_dashes ("--" ++ k) = k.
Proof. reflexivity. Qed.

Lemma parseArgs_from_cons2 : forall out x y r,
  parseArgs_from out (x :: y :: r) =
  if is_flag x then
    if is_flag y then parseArgs_from (obj_set (strip_dashes x) ArgTrue out) (y :: r)
    else parseArgs_from (obj_set (strip_dashes x) (ArgStr y) out) r
  else parseArgs_from out (y :: r).
Proof. reflexivity. Qed.

Lemma parseArgs_from_one : forall out x,
  parseArgs_from out [x] = if is_flag x then obj_set (strip_dashes x) ArgTrue out else out.
Proof. intros; simpl; destruct (is_flag x); reflexivity. Qed.

Lemma parseArgs_from_app : forall n pre out t rest,
  length pre <= n -> is_flag t = true ->
  parseArgs_from out (pre ++ t :: rest) = parseArgs_from (parseArgs_from out pre) (t :: rest).
Proof.
  induction n as [|n IH]; intros pre out t rest Hlen Ht.
  - destruct pre; [reflexivity | simpl in Hlen; lia].
  - destruct pre as [|x [|y pre]]; [reflexivity| |].
    + change ([x] ++ t :: rest) with (x :: t :: rest).
      rewrite parseArgs_from_cons2, parseArgs_from_one, Ht.
      destruct (is_flag x); reflexivity.
    + change ((x :: y :: pre) ++ t :: rest) with (x :: y :: (pre ++ t :: rest)).
      rewrite !parseArgs_from_cons2. simpl in Hlen.
      destruct (is_flag x), (is_flag y).
      * change (y :: pre ++ t :: rest) with ((y :: pre) ++ t :: rest).
        apply IH; [simpl; lia | exact Ht].
      * apply IH; [lia | exact Ht].
      * change (y :: pre ++ t :: rest) with ((y :: pre) ++ t :: rest).
        apply IH; [simpl; lia | exact Ht].
      * change (y :: pre ++ t :: rest) with ((y :: pre) ++ t :: rest).
        apply IH; [simpl; lia | exact Ht].
Qed.

Lemma parseArgs_app_flag : forall pre t rest,
  is_flag t = true ->
  parseArgs (pre ++ t :: rest) = parseArgs_from (parseArgs pre) (t :: rest).
Proof. intros; unfold parseArgs; apply (parseArgs_from_app (length pre)); auto. Qed.

(** A flag is ["--"] followed by its key. *)
Lemma flag_key : forall t, is_flag t = true -> t = ("--" ++ strip_dashes t)%string.
Proof.
  intros t Ht; unfold is_flag in Ht; destruct t as [|a [|b r]]; [discriminate Ht| |].
  - cbn [String.prefix] in Ht. destruct (ascii_dec "-" a); simpl in Ht; discriminate Ht.
  - cbn [String.prefix] in Ht. destruct (ascii_dec "-" a) as [<-|]; [|discriminate Ht].
    cbn [String.prefix] in Ht. destruct (ascii_dec "-" b) as [<-|]; [|discriminate Ht].
    reflexivity.
Qed.

Lemma obj_set_same : forall k v out, k <> "__proto__" -> assoc k (obj_set k v out) = Some v.
Proof.
  intros k v out Hk; unfold obj_set.
  destruct (String.eqb_spec k "__proto__"); [contradiction | apply assoc_set_same].
Qed.

(** Setting the key of a flag [t] other than ["--" ++ k] leaves [k] as it was, and
    no flag changes ["__proto__"]. *)
Lemma obj_set_keep : forall k t v out,
  is_flag t = true -> (k = "__proto__" \/ t <> ("--" ++ k)%string) ->
  assoc k (obj_set (strip_dashes t) v out) = assoc k out.
Proof.
  intros k t v out Ht Hk; unfold obj_set.
  destruct (String.eqb_spec (strip_dashes t) "__proto__") as [E|E]; [reflexivity|].
  apply assoc_set_other; intros ->.
  destruct Hk as [Hk|Hk]; [contradiction|].
  apply Hk, flag_key, Ht.
Qed.

Lemma parseArgs_from_keep_n : forall k n l out,
  length l <= n -> (k = "__proto__" \/ ~ In ("--" ++ k)%string l) ->
  assoc k (parseArgs_from out l) = assoc k out.
Proof.
  intros k; induction n as [|n IH]; intros l out Hlen Hk.
  - destruct l; [reflexivity | simpl in Hlen; lia].
  - destruct l as [|t [|v rest]]; [reflexivity| |].
    + rewrite parseArgs_from_one; destruct (is_flag t) eqn:Ht; [|reflexivity].
      apply obj_set_keep; [exact Ht|].
      destruct Hk as [Hk|Hk]; [left; exact Hk | right; intros E; apply Hk; left; auto].
    + rewrite parseArgs_from_cons2; simpl in Hlen.
      assert (Hs : forall u,
                 is_flag t = true -> assoc k (obj_set (strip_dashes t) u out) = assoc k out).
      { intros u Ht; apply obj_set_keep; [exact Ht|].
        destruct Hk as [Hk|Hk]; [left; exact Hk | right; intros E; apply Hk; left; auto]. }
      destruct (is_flag t) eqn:Ht; [destruct (is_flag v)|].
      * rewrite IH; [apply Hs; reflexivity | simpl; lia |].
        destruct Hk as [Hk|Hk]; [left; exact Hk | right; intros H; apply Hk; right; exact H].
      * rewrite IH; [apply Hs; reflexivity | lia |].
        destruct Hk as [Hk|Hk]; [left; exact Hk | right; intros H; apply Hk; right; right; exact H].
      * apply IH; [simpl; lia |].
        destruct Hk as [Hk|Hk]; [left; exact Hk | right; intros H; apply Hk; right; exact H].
Qed.

Lemma parseArgs_from_keep : forall k l out,
  (k = "__proto__" \/ ~ In ("--" ++ k)%string l) ->
  assoc k (parseArgs_from out l) = assoc k out.
Proof. intros k l out; apply (parseArgs_from_keep_n k (length l)); auto. Qed.

(** The binding made by the last [--k] of the arguments. *)
Lemma parseArgs_from_flag : forall k post out,
  k <> "__proto__" -> ~ In ("--" ++ k)%string post ->
  assoc k (parseArgs_from out (("--" ++ k)%string :: post)) =
  Some (match post with
        | v :: _ => if is_flag v then ArgTrue else ArgStr v
        | [] => ArgTrue
        end).
Proof.
  intros k post out Hk Hp.
  destruct post as [|v post].
  - rewrite parseArgs_from_one, is_flag_dashes, strip_dashes_dashes.
    apply obj_set_same, Hk.
  - rewrite parseArgs_from_cons2, is_flag_dashes, strip_dashes_dashes.
    destruct (is_flag v).
    + rewrite parseArgs_from_keep by (right; exact Hp). apply obj_set_same, Hk.
    + rewrite parseArgs_from_keep by (right; intros H; apply Hp; right; exact H).
      apply obj_set_same, Hk.
Qed.

(** An item that occurs in a list occurs a last time. *)
Lemma In_split_last : forall (x : string) l, In x l ->
  exists pre post, l = pre ++ x :: post /\ ~ In x post.
Proof.
  intros x l; induction l as [|y l IH]; intros H; [destruct H|].
  destruct (in_dec string_dec x l) as [Hin|Hn].
  - destruct (IH Hin) as [pre [post [-> Hp]]]; exists (y :: pre), post; split; auto.
  - destruct H as [->|H]; [|contradiction].
    exists [], l; split; [reflexivity | exact Hn].
Qed.

Lemma parseArgs_trailing : forall pre k, k <> "__proto__" ->
  assoc k (parseArgs (pre ++ ["--" ++ k]%string)) = Some ArgTrue.
Proof.
  intros pre k Hk.
  rewrite parseArgs_app_flag by apply is_flag_dashes.
  apply (parseArgs_from_flag k []); [exact Hk | intros []].
Qed.

(** X1: the binding of a key [k] is made by the last flag [--k] of the arguments:
    it takes the next item when that item is not a flag, and [true] when the flag
    ends the arguments or the next item is a flag. *)
Lemma parseArgs_last_flag : forall pre k post,
  k <> "__proto__" -> ~ In ("--" ++ k)%string post ->
  assoc k (parseArgs (pre ++ ("--" ++ k)%string :: post)) =
  Some (match post with
        | v :: _ => if is_flag v then ArgTrue else ArgStr v
        | [] => ArgTrue
        end).
Proof.
  intros pre k post Hk Hp.
  rewrite parseArgs_app_flag by apply is_flag_dashes.
  apply parseArgs_from_flag; assumption.
Qed.

Lemma parseArgs_last_flag_witness :
  "webroot" <> "__proto__" /\ ~ In "--webroot" ["/srv/a"; "--yes"] /\
  assoc "webroot" (parseArgs (["--webroot"; "/tmp"; "--yes"] ++ ("--" ++ "webroot")%string
                                :: ["/srv/a"; "--yes"]))
  = Some (ArgStr "/srv/a").
Proof.
  assert (Hk : "webroot" <> "__proto__") by discriminate.
  assert (Hp : ~ In ("--" ++ "webroot")%string ["/srv/a"; "--yes"])
    by (simpl; intuition discriminate).
  split; [exact Hk|]; split; [exact Hp|].
  exact (parseArgs_last_flag ["--webroot"; "/tmp"; "--yes"] "webroot" ["/srv/a"; "--yes"] Hk Hp).
Defined.

(** X2: [parseArgs] binds a key [k] other than ["__proto__"] exactly when the flag
    [--k] occurs in the arguments, and binds ["__proto__"] never. *)
Lemma parseArgs_keys : forall xs k, k <> "__proto__" ->
  (assoc k (parseArgs xs) <> None <-> In ("--" ++ k)%string xs) /\
  assoc "__proto__" (parseArgs xs) = None.
Proof.
  intros xs k Hk; split.
  - split.
    + intros H. destruct (in_dec string_dec ("--" ++ k)%string xs) as [Hin|Hn]; [exact Hin|].
      exfalso; apply H; unfold parseArgs; rewrite parseArgs_from_keep by (right; exact Hn).
      reflexivity.
    + intros Hin. destruct (In_split_last _ _ Hin) as [pre [post [-> Hp]]].
      rewrite (parseArgs_last_flag pre k post Hk Hp); discriminate.
  - unfold parseArgs; rewrite parseArgs_from_keep by (left; reflexivity); reflexivity.
Qed.

Lemma parseArgs_keys_witness :
  "yes" <> "__proto__" /\
  (assoc "yes" (parseArgs ["--__proto__"; "x"; "--yes"]) <> None <->
   In ("--" ++ "yes")%string ["--__proto__"; "x"; "--yes"]) /\
  assoc "__proto__" (parseArgs ["--__proto__"; "x"; "--yes"]) = None.
Proof.
  assert (Hk : "yes" <> "__proto__") by discriminate.
  split; [exact Hk|].
  exact (parseArgs_keys ["--__proto__"; "x"; "--yes"] "yes" Hk).
Defined.

Lemma drop_ws_hd : forall l,
  match drop_ws l with c :: _ => is_ws c = false | [] => True end.
Proof.
  induction l as [|c l IH]; simpl; [exact I|].
  destruct (is_ws c) eqn:E; [exact IH | exact E].
Qed.

Lemma drop_ws_fix : forall l,
  match l with c :: _ => is_ws c = false | [] => True end -> drop_ws l = l.
Proof. intros [|c l] H; simpl; [reflexivity | rewrite H; reflexivity]. Qed.

Lemma drop_ws_suffix : forall l, exists p, l = p ++ drop_ws l.
Proof.
  induction l as [|c l [p IH]]; simpl; [exists []; reflexivity|].
  destruct (is_ws c); [exists (c :: p); simpl; f_equal; exact IH | exists []; reflexivity].
Qed.

Lemma drop_ws_In : forall l c, In c (drop_ws l) -> In c l.
Proof.
  induction l as [|d l IH]; simpl; intros c H; [exact H|].
  destruct (is_ws d); [right; apply IH; exact H | exact H].
Qed.

Lemma drop_ws_nil : forall l, drop_ws l = [] -> forall c, In c l -> is_ws c = true.
Proof.
  induction l as [|d l IH]; simpl; intros H c Hc; [destruct Hc|].
  destruct (is_ws d) eqn:E; [|discriminate].
  destruct Hc as [<-|Hc]; [exact E | exact (IH H c Hc)].
Qed.

Lemma drop_ws_all : forall l, (forall c, In c l -> is_ws c = true) -> drop_ws l = [].
Proof.
  induction l as [|d l IH]; simpl; intros H; [reflexivity|].
  rewrite (H d (or_introl eq_refl)). apply IH; intros c Hc; apply H; right; exact Hc.
Qed.

Lemma trim_hd : forall l,
  match rev (drop_ws (rev (drop_ws l))) with c :: _ => is_ws c = false | [] => True end.
Proof.
  intros l.
  destruct (drop_ws_suffix (rev (drop_ws l))) as [p Hp].
  remember (drop_ws (rev (drop_ws l))) as r' eqn:Er.
  destruct (rev r') as [|c t] eqn:Ert; [exact I|].
  pose proof (drop_ws_hd l) as Hd.
  assert (Hr : drop_ws l = rev (rev (drop_ws l))) by (rewrite rev_involutive; reflexivity).
  rewrite Hp, rev_app_distr, Ert in Hr. rewrite Hr in Hd. exact Hd.
Qed.

Lemma trim_last : forall l,
  match rev (rev (drop_ws (rev (drop_ws l)))) with c :: _ => is_ws c = false | [] => True end.
Proof. intros l; rewrite rev_involutive; apply drop_ws_hd. Qed.

Lemma trim_fix : forall l,
  match l with c :: _ => is_ws c = false | [] => True end ->
  match rev l with c :: _ => is_ws c = false | [] => True end ->
  rev (drop_ws (rev (drop_ws l))) = l.
Proof.
  intros l H1 H2. rewrite (drop_ws_fix l H1), (drop_ws_fix (rev l) H2). apply rev_involutive.
Qed.

Lemma js_trim_list : forall s,
  list_ascii_of_string (js_trim s) = rev (drop_ws (rev (drop_ws (list_ascii_of_string s)))).
Proof. intros; unfold js_trim; apply list_ascii_of_string_of_list_ascii. Qed.

Lemma js_trim_idem : forall s, js_trim (js_trim s) = js_trim s.
Proof.
  intros s. unfold js_trim at 1. rewrite js_trim_list.
  rewrite trim_fix by (apply trim_hd || apply trim_last).
  unfold js_trim; reflexivity.
Qed.

Lemma js_trim_In : forall s c,
  In c (list_ascii_of_string (js_trim s)) -> In c (list_ascii_of_string s).
Proof.
  intros s c H; rewrite js_trim_list in H.
  apply in_rev in H; apply drop_ws_In in H; apply in_rev in H; apply drop_ws_In in H; exact H.
Qed.

Lemma js_trim_empty : forall s, js_trim s = "" ->
  forall c, In c (list_ascii_of_string s) -> is_ws c = true.
Proof.
  intros s H.
  assert (HL : rev (drop_ws (rev (drop_ws (list_ascii_of_string s)))) = [])
    by (rewrite <- js_trim_list, H; reflexivity).
  apply (f_equal (@rev ascii)) in HL; rewrite rev_involutive in HL; simpl in HL.
  pose proof (drop_ws_nil _ HL) as Hall.
  destruct (drop_ws (list_ascii_of_string s)) as [|d t] eqn:E.
  - apply drop_ws_nil; exact E.
  - pose proof (drop_ws_hd (list_ascii_of_string s)) as Hd; rewrite E in Hd.
    assert (is_ws d = true) by (apply Hall; apply in_rev; rewrite rev_involutive; left; reflexivity).
    congruence.
Qed.

Lemma split_runs_from_nosep : forall l insep cur w,
  (forall c, In c cur -> is_sep c = false) ->
  In w (split_runs_from insep cur l) -> forall c, In c w -> is_sep c = false.
Proof.
  induction l as [|d l IH]; intros insep cur w Hcur Hw c Hc; simpl in Hw.
  - destruct Hw as [<-|[]]. apply Hcur, in_rev, Hc.
  - destruct (is_sep d) eqn:Ed; [destruct insep|].
    + exact (IH true cur w Hcur Hw c Hc).
    + destruct Hw as [<-|Hw]; [apply Hcur, in_rev, Hc|].
      apply (IH true [] w); [intros ? []|exact Hw|exact Hc].
    + apply (IH false (d :: cur) w); [|exact Hw|exact Hc].
      intros e [<-|He]; [exact Ed | apply Hcur, He].
Qed.

Lemma split_runs_from_chars : forall l insep cur w,
  In w (split_runs_from insep cur l) -> forall c, In c w -> In c cur \/ In c l.
Proof.
  induction l as [|d l IH]; intros insep cur w Hw c Hc; simpl in Hw.
  - destruct Hw as [<-|[]]. left; apply in_rev, Hc.
  - destruct (is_sep d); [destruct insep|].
    + destruct (IH true cur w Hw c Hc) as [H|H]; [left; exact H | right; right; exact H].
    + destruct Hw as [<-|Hw]; [left; apply in_rev, Hc|].
      destruct (IH true [] w Hw c Hc) as [[]|H]; right; right; exact H.
    + destruct (IH false (d :: cur) w Hw c Hc) as [[<-|H]|H];
        [right; left; reflexivity | left; exact H | right; right; exact H].
Qed.

Lemma trim_nonempty_In : forall l x, In x (trim_nonempty l) ->
  x <> "" /\ js_trim x = x /\ exists y, In y l /\ x = js_trim y.
Proof.
  intros l x H; unfold trim_nonempty in H.
  apply filter_In in H; destruct H as [H Hne].
  apply in_map_iff in H; destruct H as [y [<- Hy]].
  split; [destruct (String.eqb_spec (js_trim y) ""); [discriminate | assumption]|].
  split; [apply js_trim_idem | exists y; split; [exact Hy | reflexivity]].
Qed.

Lemma split_runs_nosep : forall s y, In y (split_runs s) ->
  forall c, In c (list_ascii_of_string y) -> is_sep c = false.
Proof.
  intros s y H c Hc; unfold split_runs in H.
  apply in_map_iff in H; destruct H as [w [<- Hw]].
  rewrite list_ascii_of_string_of_list_ascii in Hc.
  exact (split_runs_from_nosep _ false [] w (fun _ H => match H with end) Hw c Hc).
Qed.

Lemma split_pieces : forall s x, In x (trim_nonempty (split_runs s)) ->
  x <> "" /\ js_trim x = x /\ (forall c, In c (list_ascii_of_string x) -> is_sep c = false).
Proof.
  intros s x H. destruct (trim_nonempty_In _ _ H) as [Hne [Ht [y [Hy ->]]]].
  split; [exact Hne|]; split; [exact Ht|].
  intros c Hc; apply js_trim_In in Hc; exact (split_runs_nosep s y Hy c Hc).
Qed.

(** X4: every path returned by [split] (remote-ftp.ts and remote-sftp.ts) is
    non-empty, has no surrounding whitespace and contains no comma or newline
    (strings of code units below 256, where [trim] also removes no-break space). *)
Lemma split_items_clean : forall v l x,
  (ftp_split v = Some l \/ sftp_split v = Some l) -> In x l ->
  x <> "" /\ js_trim x = x /\ (forall c, In c (list_ascii_of_string x) -> is_sep c = false).
Proof.
  intros [v|] l x [H|H] Hx; simpl in H; try discriminate.
  - destruct (String.eqb (js_trim v) ""); [discriminate|].
    injection H as <-; exact (split_pieces _ x Hx).
  - destruct (String.eqb v ""); [discriminate|].
    injection H as <-; exact (split_pieces _ x Hx).
Qed.

Lemma split_items_clean_witness :
  (ftp_split (Some " uploads/ ,
robots.txt") = Some ["uploads/"; "robots.txt"] \/
   sftp_split (Some " uploads/ ,
robots.txt") = Some ["uploads/"; "robots.txt"]) /\
  In "robots.txt" ["uploads/"; "robots.txt"] /\
  ("robots.txt" <> "" /\ js_trim "robots.txt" = "robots.txt" /\
   (forall c, In c (list_ascii_of_string "robots.txt") -> is_sep c = false)).
Proof.
  assert (H : ftp_split (Some " uploads/ ,
robots.txt") = Some ["uploads/"; "robots.txt"] \/
   sftp_split (Some " uploads/ ,
robots.txt") = Some ["uploads/"; "robots.txt"]) by (left; vm_compute; reflexivity).
  split; [exact H|]. split; [right; left; reflexivity|].
  exact (split_items_clean _ _ "robots.txt" H (or_intror (or_introl eq_refl))).
Defined.

Lemma js_trim_all_ws : forall s,
  (forall c, In c (list_ascii_of_string s) -> is_ws c = true) -> js_trim s = "".
Proof.
  intros s H. unfold js_trim. rewrite (drop_ws_all _ H). reflexivity.
Qed.

(** X6: a preserve value made only of whitespace is dropped by the FTP [split],
    so the default preserve rules apply, while the SFTP [split] turns it into an
    empty list, so no path is preserved. *)
Lemma blank_preserve_value : forall s,
  s <> "" -> js_trim s = "" ->
  resolve_preservePaths (ftp_split (Some s)) = default_preservePaths /\
  resolve_preservePaths (sftp_split (Some s)) = [].
Proof.
  intros s Hne Ht. simpl. rewrite Ht. split; [reflexivity|].
  destruct (String.eqb_spec s "") as [|_]; [contradiction|]. simpl.
  pose proof (js_trim_empty s Ht) as Hws.
  unfold trim_nonempty. apply filter_all_false.
  intros x Hx. apply in_map_iff in Hx; destruct Hx as [y [<- Hy]].
  rewrite js_trim_all_ws; [reflexivity|].
  intros c Hc. apply Hws.
  unfold split_runs in Hy. apply in_map_iff in Hy; destruct Hy as [w [<- Hw]].
  rewrite list_ascii_of_string_of_list_ascii in Hc.
  destruct (split_runs_from_chars _ false [] w Hw c Hc) as [[]|H]; exact H.
Qed.

Lemma blank_preserve_value_witness :
  " " <> "" /\ js_trim " " = "" /\
  resolve_preservePaths (ftp_split (Some " ")) = default_preservePaths /\
  resolve_preservePaths (sftp_split (Some " ")) = [].
Proof.
  split; [discriminate|]. split; [reflexivity|].
  apply blank_preserve_value; [discriminate | reflexivity].
Defined.

(** X3: in the FTP and SFTP command lines, a bare [--preserve] at the end of the
    arguments is read as the string "true", so the preserve list becomes
    ["true"]: the default rules are dropped and only a path named "true" is
    preserved. *)
Lemma bare_preserve_flag : forall pre,
  resolve_preservePaths (ftp_split (arg_get (parseArgs (pre ++ ["--preserve"])) "preserve"))
    = ["true"] /\
  resolve_preservePaths (sftp_split (arg_get (parseArgs (pre ++ ["--preserve"])) "preserve"))
    = ["true"] /\
  (forall rel, isPreservedRel ["true"] rel = String.eqb rel "true").
Proof.
  intros pre. unfold arg_get.
  change "--preserve" with ("--" ++ "preserve")%string.
  rewrite parseArgs_trailing by discriminate.
  split; [reflexivity|]. split; [reflexivity|].
  intros rel. unfold isPreservedRel. simpl.
  replace (normalize "true") with "true" by reflexivity.
  unfold isPreserveMatch. replace (ends_with_slash "true") with false by reflexivity.
  apply orb_false_r.
Qed.

Lemma split_runs_word : forall w cur rest,
  (forall c, In c w -> is_sep c = false) ->
  split_runs_from false cur (w ++ rest) = split_runs_from false (rev w ++ cur) rest.
Proof.
  induction w as [|c w IH]; intros cur rest H; [reflexivity|].
  simpl. rewrite (H c (or_introl eq_refl)).
  rewrite IH by (intros d Hd; apply H; right; exact Hd).
  rewrite <- app_assoc; reflexivity.
Qed.

Lemma split_runs_from_true_nonsep : forall c t,
  is_sep c = false -> split_runs_from true [] (c :: t) = split_runs_from false [] (c :: t).
Proof. intros c t H; simpl; rewrite H; reflexivity. Qed.

Lemma split_runs_from_sep : forall cur c L,
  is_sep c = true -> split_runs_from false cur (c :: L) = rev cur :: split_runs_from true [] L.
Proof. intros cur c L H; simpl; rewrite H; reflexivity. Qed.

Lemma concat_head : forall (y : string) r, exists rest,
  list_ascii_of_string (String.concat "," (y :: r)) = list_ascii_of_string y ++ rest.
Proof.
  intros y [|z r].
  - exists []; rewrite app_nil_r; reflexivity.
  - exists (list_ascii_of_string ("," ++ String.concat "," (z :: r))%string).
    change (String.concat "," (y :: z :: r)) with (y ++ "," ++ String.concat "," (z :: r))%string.
    apply list_ascii_of_string_append.
Qed.

Lemma concat_last : forall l, l <> [] -> exists pre,
  list_ascii_of_string (String.concat "," l) = pre ++ list_ascii_of_string (last l "") /\
  In (last l "") l.
Proof.
  induction l as [|x [|y r] IH]; intros Hne; [contradiction| |].
  - exists []; split; [reflexivity | left; reflexivity].
  - destruct (IH ltac:(discriminate)) as [pre [Hp Hin]].
    exists (list_ascii_of_string x ++ ","%char :: pre); split.
    + change (String.concat "," (x :: y :: r)) with (x ++ "," ++ String.concat "," (y :: r))%string.
      rewrite list_ascii_of_string_append.
      change (list_ascii_of_string ("," ++ String.concat "," (y :: r))%string)
        with (","%char :: list_ascii_of_string (String.concat "," (y :: r))).
      rewrite Hp. change (last (x :: y :: r) "") with (last (y :: r) "").
      rewrite <- app_assoc. reflexivity.
    + right; exact Hin.
Qed.

Lemma split_runs_concat : forall l, l <> [] ->
  (forall x, In x l -> x <> "" /\ forall c, In c (list_ascii_of_string x) -> is_sep c = false) ->
  split_runs_from false [] (list_ascii_of_string (String.concat "," l))
  = map list_ascii_of_string l.
Proof.
  induction l as [|x [|y r] IH]; intros Hne H; [contradiction| |].
  - change (String.concat "," [x]) with x.
    rewrite <- (app_nil_r (list_ascii_of_string x)).
    rewrite split_runs_word by (apply H; left; reflexivity).
    simpl. rewrite !app_nil_r, rev_involutive. reflexivity.
  - change (String.concat "," (x :: y :: r)) with (x ++ "," ++ String.concat "," (y :: r))%string.
    rewrite list_ascii_of_string_append.
    change (list_ascii_of_string ("," ++ String.concat "," (y :: r))%string)
      with ("," :: list_ascii_of_string (String.concat "," (y :: r)))%char.
    destruct (concat_head y r) as [rest Hr].
    remember (String.concat "," (y :: r)) as S eqn:ES.
    rewrite split_runs_word by (apply H; left; reflexivity).
    rewrite split_runs_from_sep by reflexivity.
    rewrite app_nil_r, rev_involutive.
    simpl map. f_equal.
    destruct (H y (or_intror (or_introl eq_refl))) as [Hy Hys].
    rewrite Hr.
    destruct y as [|c y']; [contradiction|].
    simpl app. rewrite split_runs_from_true_nonsep by (apply Hys; left; reflexivity).
    change (c :: list_ascii_of_string y' ++ rest)
      with (list_ascii_of_string (String c y') ++ rest).
    rewrite <- Hr. apply IH; [discriminate|].
    intros z Hz; apply H; right; exact Hz.
Qed.

Lemma trimmed_hd : forall x, js_trim x = x ->
  match list_ascii_of_string x with c :: _ => is_ws c = false | [] => True end /\
  match rev (list_ascii_of_string x) with c :: _ => is_ws c = false | [] => True end.
Proof.
  intros x Ht.
  assert (E : list_ascii_of_string x =
              rev (drop_ws (rev (drop_ws (list_ascii_of_string x)))))
    by (rewrite <- js_trim_list, Ht; reflexivity).
  split; rewrite E; [apply trim_hd | apply trim_last].
Qed.

Lemma filter_all_true : forall {A} (g : A -> bool) l,
  (forall x, In x l -> g x = true) -> filter g l = l.
Proof.
  intros A g l H; induction l as [|x l IH]; simpl; [reflexivity|].
  rewrite (H x (or_introl eq_refl)), IH; [reflexivity|].
  intros y Hy; apply H; right; exact Hy.
Qed.

(** X5: joining non-empty, trimmed paths that contain no comma or newline with
    [","] and passing the result to [split] (FTP or SFTP) gives back the same list. *)
Lemma split_join_round_trip : forall l, l <> [] ->
  (forall x, In x l ->
     x <> "" /\ js_trim x = x /\ (forall c, In c (list_ascii_of_string x) -> is_sep c = false)) ->
  ftp_split (Some (String.concat "," l)) = Some l /\
  sftp_split (Some (String.concat "," l)) = Some l.
Proof.
  intros l Hne H.
  assert (Hsplit : trim_nonempty (split_runs (String.concat "," l)) = l).
  { unfold split_runs. rewrite split_runs_concat by
      (auto || (intros x Hx; destruct (H x Hx) as [H1 [_ H3]]; split; assumption)).
    rewrite map_map.
    rewrite (map_ext _ (fun x => x) string_of_list_ascii_of_string), map_id.
    unfold trim_nonempty.
    rewrite (map_ext_in js_trim (fun x => x)), map_id
      by (intros x Hx; apply H; exact Hx).
    apply filter_all_true. intros x Hx.
    destruct (H x Hx) as [H1 _]. destruct (String.eqb_spec x ""); [contradiction | reflexivity]. }
  destruct l as [|x r]; [contradiction|].
  assert (Hx : x <> "" /\ js_trim x = x) by (destruct (H x (or_introl eq_refl)) as [? [? _]]; split; assumption).
  destruct Hx as [Hx Htx].
  destruct (concat_head x r) as [rest Hr].
  assert (Hnil : String.eqb (String.concat "," (x :: r)) "" = false).
  { destruct (String.eqb_spec (String.concat "," (x :: r)) "") as [E|]; [|reflexivity].
    apply (f_equal list_ascii_of_string) in E. rewrite Hr in E.
    destruct x; [contradiction | discriminate]. }
  assert (Htrim : js_trim (String.concat "," (x :: r)) = String.concat "," (x :: r)).
  { unfold js_trim. rewrite trim_fix; [apply string_of_list_ascii_of_string| |].
    - rewrite Hr. destruct (trimmed_hd x Htx) as [Hh _].
      destruct x as [|c x']; [contradiction|]. exact Hh.
    - destruct (concat_last (x :: r) ltac:(discriminate)) as [pre [Hp Hin]].
      rewrite Hp, rev_app_distr.
      destruct (H _ Hin) as [Hz [Htz _]].
      destruct (trimmed_hd _ Htz) as [_ Hh].
      destruct (rev (list_ascii_of_string (last (x :: r) ""))) eqn:Ez.
      + apply (f_equal (@rev ascii)) in Ez. rewrite rev_involutive in Ez.
        destruct (last (x :: r) ""); [contradiction | discriminate].
      + exact Hh. }
  unfold ftp_split, sftp_split. cbv beta iota zeta.
  rewrite Htrim, Hnil, Hsplit. split; reflexivity.
Qed.

Lemma split_join_round_trip_witness :
  ["uploads/"; "robots.txt"] <> [] /\
  (forall x, In x ["uploads/"; "robots.txt"] ->
     x <> "" /\ js_trim x = x /\ (forall c, In c (list_ascii_of_string x) -> is_sep c = false)) /\
  ftp_split (Some (String.concat "," ["uploads/"; "robots.txt"])) = Some ["uploads/"; "robots.txt"] /\
  sftp_split (Some (String.concat "," ["uploads/"; "robots.txt"])) = Some ["uploads/"; "robots.txt"].
Proof.
  assert (H : forall x, In x ["uploads/"; "robots.txt"] ->
     x <> "" /\ js_trim x = x /\ (forall c, In c (list_ascii_of_string x) -> is_sep c = false)).
  { intros x [<-|[<-|[]]]; (split; [discriminate|]); (split; [reflexivity|]);
      intros c Hc; simpl in Hc;
      repeat (destruct Hc as [<-|Hc]; [reflexivity|]); destruct Hc. }
  split; [discriminate|]. split; [exact H|].
  apply split_join_round_trip; [discriminate | exact H].
Defined.

(** X7: with FORCE set and neither [--yes] nor YES, a non-interactive FTP deploy
    (and SFTP deploy or restore) passes the confirmation gate, while a
    non-interactive FTP restore stops with the non-interactive error, since
    [cliRestoreFTP] does not read FORCE. *)
Lemma ftp_restore_ignores_force : forall args envFORCE,
  arg_get args "yes" = None -> truthyEnv envFORCE = true -> cli_confirm args <> ConfirmNever ->
  maybeConfirm (cli_confirm args) false (cli_yes args None envFORCE) = GateProceed /\
  maybeConfirm (cli_confirm args) false (ftp_restore_cli_yes args None envFORCE) = GateThrow.
Proof.
  intros args envFORCE Hy HF Hc.
  unfold cli_yes, ftp_restore_cli_yes. rewrite Hy, HF. simpl.
  destruct (cli_confirm args); [| |contradiction]; split; reflexivity.
Qed.

Lemma ftp_restore_ignores_force_witness :
  arg_get (parseArgs ["--host"; "h"; "--user"; "u"]) "yes" = None /\
  truthyEnv (Some "1") = true /\
  cli_confirm (parseArgs ["--host"; "h"; "--user"; "u"]) <> ConfirmNever /\
  maybeConfirm (cli_confirm (parseArgs ["--host"; "h"; "--user"; "u"])) false
    (cli_yes (parseArgs ["--host"; "h"; "--user"; "u"]) None (Some "1")) = GateProceed /\
  maybeConfirm (cli_confirm (parseArgs ["--host"; "h"; "--user"; "u"])) false
    (ftp_restore_cli_yes (parseArgs ["--host"; "h"; "--user"; "u"]) None (Some "1")) = GateThrow.
Proof.
  assert (H3 : cli_confirm (parseArgs ["--host"; "h"; "--user"; "u"]) <> ConfirmNever)
    by (vm_compute; discriminate).
  split; [reflexivity|]. split; [reflexivity|]. split; [exact H3|].
  apply ftp_restore_ignores_force; [reflexivity | reflexivity | exact H3].
Defined.

Lemma hs_loop_cases : forall b,
  ((b < 1024)%Z /\ hs_loop 4 b 1 0 = (1%Z, 0%nat)) \/
  ((1024 <= b < 1048576)%Z /\ hs_loop 4 b 1 0 = (1024%Z, 1%nat)) \/
  ((1048576 <= b < 1073741824)%Z /\ hs_loop 4 b 1 0 = (1048576%Z, 2%nat)) \/
  ((1073741824 <= b < 1099511627776)%Z /\ hs_loop 4 b 1 0 = (1073741824%Z, 3%nat)) \/
  ((1099511627776 <= b)%Z /\ hs_loop 4 b 1 0 = (1099511627776%Z, 4%nat)).
Proof.
  intros b. simpl.
  destruct (Z.leb_spec 1024 b); simpl; [|left; split; [lia | reflexivity]].
  destruct (Z.leb_spec 1048576 b); simpl; [|right; left; split; [lia | reflexivity]].
  destruct (Z.leb_spec 1073741824 b); simpl; [|right; right; left; split; [lia | reflexivity]].
  destruct (Z.leb_spec 1099511627776 b); simpl;
    [right; right; right; right; split; [lia | reflexivity]
    |right; right; right; left; split; [lia | reflexivity]].
Qed.

(** X8: a size below 1024 bytes is printed in bytes, as the integer itself. *)
Lemma humanSize_bytes : forall b, (0 <= b < 1024)%Z ->
  humanSize b = (z_to_dec b ++ " B")%string.
Proof.
  intros b Hb. unfold humanSize.
  destruct (hs_loop_cases b) as [[_ ->]|[[? _]|[[? _]|[[? _]|[? _]]]]]; try lia.
  unfold toFixed. rewrite orb_true_r. cbv [negb].
  rewrite <- (Z.div_unique_pos (2 * b + 1) (2 * 1) b 1) by lia. reflexivity.
Qed.

Lemma humanSize_bytes_witness :
  (0 <= 512 < 1024)%Z /\ humanSize 512 = (z_to_dec 512 ++ " B")%string.
Proof. split; [lia | apply humanSize_bytes; lia]. Defined.

(** X9: [humanSize] prints a size in the largest unit (up to TB) that does not
    exceed it: for the unit index [i], the size is at least [1024^i] (unless [i = 0])
    and below [1024^(i+1)] (unless [i = 4], TB). *)
Lemma humanSize_unit : forall b, exists i num,
  (i <= 4)%nat /\
  (i = 0%nat \/ (1024 ^ Z.of_nat i <= b)%Z) /\
  (i = 4%nat \/ (b < 1024 ^ Z.of_nat (S i))%Z) /\
  humanSize b = (num ++ " " ++ nth i units "")%string.
Proof.
  intros b. unfold humanSize.
  destruct (hs_loop_cases b) as [[Hb ->]|[[Hb ->]|[[Hb ->]|[[Hb ->]|[Hb ->]]]]];
    [exists 0%nat | exists 1%nat | exists 2%nat | exists 3%nat | exists 4%nat];
    eexists; (split; [lia|]); simpl Z.of_nat; simpl Z.pow;
    (split; [first [left; reflexivity | right; lia]|]);
    (split; [first [left; reflexivity | right; lia]|]); reflexivity.
Qed.

(** X10: rounding can print 1024 of a unit: a size from 1023.5 up to (but not
    including) 1024 KB, MB or GB is printed as ["1024 KB"], ["1024 MB"] or
    ["1024 GB"] instead of in the next unit. *)
Lemma humanSize_1024 : forall i b, (1 <= i <= 3)%nat ->
  (1024 ^ Z.of_nat (S i) - 512 * 1024 ^ Z.of_nat (i - 1) <= b < 1024 ^ Z.of_nat (S i))%Z ->
  humanSize b = ("1024 " ++ nth i units "")%string.
Proof.
  intros i b Hi Hb. unfold humanSize.
  destruct i as [|[|[|[|i]]]]; try lia; simpl in Hb;
  destruct (hs_loop_cases b) as [[? E]|[[? E]|[[? E]|[[? E]|[? E]]]]]; try lia; rewrite E;
  unfold toFixed;
  (replace (Z.leb (100 * _) b) with true by (symmetry; apply Z.leb_le; lia)); cbv [negb orb].
  - rewrite <- (Z.div_unique_pos (2 * b + 1024) (2 * 1024) 1024 (2 * b + 1024 - 2 * 1024 * 1024)) by lia.
    reflexivity.
  - rewrite <- (Z.div_unique_pos (2 * b + 1048576) (2 * 1048576) 1024
               (2 * b + 1048576 - 2 * 1048576 * 1024)) by lia.
    reflexivity.
  - rewrite <- (Z.div_unique_pos (2 * b + 1073741824) (2 * 1073741824) 1024
               (2 * b + 1073741824 - 2 * 1073741824 * 1024)) by lia.
    reflexivity.
Qed.

Lemma humanSize_1024_witness :
  (1 <= 1 <= 3)%nat /\
  (1024 ^ Z.of_nat 2 - 512 * 1024 ^ Z.of_nat 0 <= 1048575 < 1024 ^ Z.of_nat 2)%Z /\
  humanSize 1048575 = ("1024 " ++ nth 1 units "")%string.
Proof.
  assert (H : (1024 ^ Z.of_nat 2 - 512 * 1024 ^ Z.of_nat 0 <= 1048575 < 1024 ^ Z.of_nat 2)%Z)
    by (simpl; lia).
  split; [lia|]. split; [exact H|]. apply (humanSize_1024 1 1048575); [lia | exact H].
Defined.

Lemma str_app_assoc : forall a b c : string, (a ++ (b ++ c))%string = ((a ++ b) ++ c)%string.
Proof. induction a as [|x a IH]; intros b c; simpl; [reflexivity | rewrite IH; reflexivity]. Qed.

Lemma str_length_app : forall a b : string,
  String.length (a ++ b) = String.length a + String.length b.
Proof. induction a as [|x a IH]; intros b; simpl; [reflexivity | rewrite IH; reflexivity]. Qed.

Lemma prefix_longer : forall a c s, String.prefix (a ++ String c s)%string a = false.
Proof.
  induction a as [|x a IH]; intros c s; [reflexivity|].
  simpl. destruct (ascii_dec x x) as [_|n]; [apply IH | congruence].
Qed.

Lemma drop_slashes_repeat : forall n l,
  drop_slashes (repeat slash n ++ l) = drop_slashes l.
Proof. induction n as [|n IH]; intros l; [reflexivity | simpl; exact (IH l)]. Qed.

(** X11: a directory rule written with any number of trailing slashes behaves as
    the rule with one slash: it preserves exactly the paths that start with the
    directory name followed by [/], the marker [d/] itself included, and never the
    bare directory name. *)
Lemma dir_rule_trailing_slashes : forall d k rel,
  ends_with_slash d = false ->
  isPreserveMatch rel (d ++ string_of_list_ascii (repeat slash (S k)))%string
    = String.prefix (d ++ "/")%string rel /\
  isPreserveMatch d (d ++ "/")%string = false.
Proof.
  assert (Hgen : forall d k rel, ends_with_slash d = false ->
    isPreserveMatch rel (d ++ string_of_list_ascii (repeat slash (S k)))%string
      = String.prefix (d ++ "/")%string rel).
  { intros d k rel Hd. unfold isPreserveMatch.
    assert (Hr : rev (list_ascii_of_string (d ++ string_of_list_ascii (repeat slash (S k)))%string)
                 = repeat slash (S k) ++ rev (list_ascii_of_string d)).
    { rewrite list_ascii_of_string_append, list_ascii_of_string_of_list_ascii, rev_app_distr,
        rev_repeat; reflexivity. }
    assert (He : ends_with_slash (d ++ string_of_list_ascii (repeat slash (S k)))%string = true)
      by (unfold ends_with_slash; rewrite Hr; reflexivity).
    rewrite He. unfold strip_trailing_slashes. rewrite Hr, drop_slashes_repeat.
    unfold ends_with_slash in Hd.
    destruct (rev (list_ascii_of_string d)) as [|c t] eqn:Ed.
    - simpl. apply (f_equal (@rev ascii)) in Ed. rewrite rev_involutive in Ed.
      destruct d; [reflexivity | discriminate].
    - simpl. rewrite Hd. rewrite <- Ed, rev_involutive, string_of_list_ascii_of_string.
      reflexivity. }
  intros d k rel Hd; split; [apply Hgen; exact Hd|].
  change (d ++ "/")%string with (d ++ string_of_list_ascii (repeat slash 1))%string at 1.
  rewrite (Hgen d 0 d Hd). apply prefix_longer.
Qed.

Lemma dir_rule_trailing_slashes_witness :
  ends_with_slash "uploads" = false /\
  isPreserveMatch "uploads/a.png" ("uploads" ++ string_of_list_ascii (repeat slash 3))%string
    = String.prefix ("uploads" ++ "/")%string "uploads/a.png" /\
  isPreserveMatch "uploads" ("uploads" ++ "/")%string = false.
Proof.
  split; [reflexivity|]. apply (dir_rule_trailing_slashes "uploads" 2 "uploads/a.png"); reflexivity.
Defined.

Lemma insert_desc_perm : forall x l, Permutation (x :: l) (insert_desc x l).
Proof.
  intros x l; induction l as [|y l IH]; simpl; [reflexivity|].
  destruct (Nat.ltb (String.length y) (String.length x)); [reflexivity|].
  rewrite perm_swap. apply perm_skip, IH.
Qed.

Lemma insert_desc_sorted : forall x l,
  StronglySorted (fun a b => String.length b <= String.length a) l ->
  StronglySorted (fun a b => String.length b <= String.length a) (insert_desc x l).
Proof.
  intros x l; induction l as [|y l IH]; intros H; simpl.
  - repeat constructor.
  - apply StronglySorted_inv in H; destruct H as [Hl Hy].
    destruct (Nat.ltb_spec (String.length y) (String.length x)) as [Hlt|Hge].
    + constructor; [constructor; assumption|].
      constructor; [lia|].
      eapply Forall_impl; [|exact Hy]. intros z Hz; simpl in Hz; lia.
    + constructor; [apply IH; exact Hl|].
      apply Forall_forall; intros z Hz.
      apply (Permutation_in _ (Permutation_sym (insert_desc_perm x l))) in Hz.
      destruct Hz as [<-|Hz]; [exact Hge|].
      rewrite Forall_forall in Hy; exact (Hy z Hz).
Qed.

Lemma sort_len_desc_spec : forall l,
  StronglySorted (fun a b => String.length b <= String.length a) (sort_len_desc l) /\ Permutation l (sort_len_desc l).
Proof.
  assert (G : forall l acc,
    StronglySorted (fun a b => String.length b <= String.length a) acc ->
    StronglySorted (fun a b => String.length b <= String.length a)
      (fold_left (fun acc x => insert_desc x acc) l acc) /\ Permutation (l ++ acc) (fold_left (fun acc x => insert_desc x acc) l acc)).
  { induction l as [|x l IH]; intros acc H; simpl; [split; [exact H | reflexivity]|].
    destruct (IH (insert_desc x acc) (insert_desc_sorted x acc H)) as [H1 H2].
    split; [exact H1|].
    rewrite <- H2. rewrite Permutation_middle.
    apply Permutation_app_head, insert_desc_perm. }
  intros l. unfold sort_len_desc.
  destruct (G l [] (SSorted_nil _)) as [H1 H2]. rewrite app_nil_r in H2. split; assumption.
Qed.

Lemma StronglySorted_app_r : forall {A} (R : A -> A -> Prop) l1 l2,
  StronglySorted R (l1 ++ l2) -> StronglySorted R l2.
Proof.
  intros A R l1 l2; induction l1 as [|x l1 IH]; intros H; [exact H|].
  apply StronglySorted_inv in H; apply IH; apply H.
Qed.

Lemma remoteDirsDesc_In : forall pr t d,
  In d (remoteDirsDesc pr t) <-> In d (dirs t) /\ isPreservedRel pr (d ++ "/")%string = false.
Proof.
  intros pr t d. unfold remoteDirsDesc.
  destruct (sort_len_desc_spec (filter (fun rel => negb (isPreservedRel pr (rel ++ "/")))
                                       (dirs t))) as [_ Hp].
  split; intros H.
  - apply (Permutation_in _ (Permutation_sym Hp)) in H.
    apply filter_In in H; destruct H as [H1 H2]. split; [exact H1|].
    destruct (isPreservedRel pr (d ++ "/")); [discriminate | reflexivity].
  - apply (Permutation_in _ Hp). apply filter_In. destruct H as [H1 H2].
    split; [exact H1 | rewrite H2; reflexivity].
Qed.

(** X12: the directories pruned after a deploy are exactly the listed remote
    directories outside preserved space, and they are visited longest path first,
    so no directory is visited before one of its subdirectories. *)
Lemma prune_order : forall pr t,
  (forall d, In d (remoteDirsDesc pr t) <->
             In d (dirs t) /\ isPreservedRel pr (d ++ "/")%string = false) /\ (forall l1 p l2 x, remoteDirsDesc pr t = l1 ++ p :: l2 -> ~ In (p ++ "/" ++ x)%string l2).
Proof.
  intros pr t; split; [apply remoteDirsDesc_In|].
  intros l1 p l2 x E Hin.
  destruct (sort_len_desc_spec (filter (fun rel => negb (isPreservedRel pr (rel ++ "/")))
                                       (dirs t))) as [Hs _].
  fold (remoteDirsDesc pr t) in Hs. rewrite E in Hs.
  apply StronglySorted_app_r in Hs. apply StronglySorted_inv in Hs. destruct Hs as [_ Hf].
  rewrite Forall_forall in Hf. specialize (Hf _ Hin). simpl in Hf.
  rewrite !str_length_app in Hf. simpl in Hf. lia.
Qed.

Lemma sftp_upload_one_phase : forall w dry ph rel ph' c,
  In (Call ph' c) (sftp_upload_one w dry ph rel) -> ph' = ph.
Proof.
  intros w dry ph rel ph' c H. unfold sftp_upload_one in H.
  destruct dry; [destruct H as [H|[]]; discriminate|].
  apply in_app_iff in H; destruct H as [H|H].
  - destruct (ensureDirAbs_mkdirs _ _ _ H) as [d E]; congruence.
  - destruct H as [H|[]]; congruence.
Qed.

Lemma sftp_body_no_prune : forall fl pr lf w dry t c,
  ~ In (Call Prune c) (sftp_body fl pr lf w dry t).
Proof.
  intros fl pr lf w dry t c H. rewrite sftp_body_unguarded in H.
  apply in_app_iff in H; destruct H as [H|H]; [|apply in_app_iff in H; destruct H as [H|H]].
  - apply in_flat_map in H; destruct H as [rel [_ H]]. unfold delete_step in H.
    destruct dry; destruct H as [H|[]]; discriminate.
  - apply in_flat_map in H; destruct H as [rel [_ H]].
    apply sftp_upload_one_phase in H; discriminate.
  - apply in_flat_map in H; destruct H as [rel [_ H]].
    apply sftp_upload_one_phase in H; discriminate.
Qed.

Lemma sftp_prune_rmdir : forall dry ds d,
  In (Call Prune (Rmdir d)) (sftp_prune dry ds) -> In d ds.
Proof.
  intros dry ds d H. unfold sftp_prune in H. apply in_flat_map in H.
  destruct H as [rel [Hin H]]. destruct dry; [destruct H|].
  destruct H as [H|[]]; injection H as ->; exact Hin.
Qed.

(** X13: every [rmdir] of the prune step of an SFTP deploy targets a directory of
    the remote listing whose marker is outside preserved space. *)
Lemma prune_rmdir_targets : forall pr lf w dry rt d,
  In (Call Prune (Rmdir d)) (sftp_run Deploy pr lf w dry rt) ->
  In d (dirs rt) /\ isPreservedRel pr (d ++ "/")%string = false.
Proof.
  intros pr lf w dry rt d H. apply remoteDirsDesc_In.
  unfold sftp_run in H. apply in_app_iff in H; destruct H as [H|H].
  - destruct (setup_webroot_setup _ _ _ H) as [c E]; discriminate.
  - apply in_app_iff in H; destruct H as [H|H].
    + exfalso; exact (sftp_body_no_prune _ _ _ _ _ _ _ H).
    + apply sftp_prune_rmdir in H; exact H.
Qed.

Lemma prune_rmdir_targets_witness :
  In (Call Prune (Rmdir "old")) (sftp_run Deploy [] [] "/w" false (mkTree [] ["old"])) /\
  In "old" (dirs (mkTree [] ["old"])) /\ isPreservedRel [] ("old" ++ "/")%string = false.
Proof.
  assert (H : In (Call Prune (Rmdir "old")) (sftp_run Deploy [] [] "/w" false (mkTree [] ["old"])))
    by (vm_compute; right; left; reflexivity).
  split; [exact H|].
  exact (prune_rmdir_targets [] [] "/w" false (mkTree [] ["old"]) "old" H).
Defined.

Lemma concat_snoc : forall pre s, pre <> [] ->
  String.concat "/" (pre ++ [s]) = (String.concat "/" pre ++ "/" ++ s)%string.
Proof.
  induction pre as [|x [|y r] IH]; intros s Hne; [contradiction| reflexivity |].
  change (String.concat "/" ((x :: y :: r) ++ [s]))
    with (x ++ "/" ++ String.concat "/" ((y :: r) ++ [s]))%string.
  rewrite IH by discriminate.
  change (String.concat "/" (x :: y :: r)) with (x ++ "/" ++ String.concat "/" (y :: r))%string.
  rewrite !str_app_assoc. reflexivity.
Qed.

Lemma concat_nonempty : forall x r, x <> "" -> String.concat "/" (x :: r) <> "".
Proof.
  intros x [|y r] Hx; [exact Hx|].
  change (String.concat "/" (x :: y :: r)) with (x ++ "/" ++ String.concat "/" (y :: r))%string.
  destruct x; [contradiction | discriminate].
Qed.

Lemma mkdir_chain_cons : forall cur s t,
  mkdir_chain cur (s :: t) = join_segment cur s :: mkdir_chain (join_segment cur s) t.
Proof. reflexivity. Qed.

Lemma mkdir_chain_length : forall segs cur, length (mkdir_chain cur segs) = length segs.
Proof. induction segs as [|s t IH]; intros cur; simpl; [reflexivity | rewrite IH; reflexivity]. Qed.

Lemma mkdir_chain_from : forall segs pre k,
  pre <> [] -> Forall (fun s => s <> "") pre -> Forall (fun s => s <> "") segs ->
  k < length segs ->
  nth_error (mkdir_chain ("/" ++ String.concat "/" pre)%string segs) k
  = Some ("/" ++ String.concat "/" (pre ++ firstn (S k) segs))%string.
Proof.
  induction segs as [|s t IH]; intros pre k Hne Hpre Hsegs Hk; [simpl in Hk; lia|].
  assert (Hj : join_segment ("/" ++ String.concat "/" pre)%string s
               = ("/" ++ String.concat "/" (pre ++ [s]))%string).
  { unfold join_segment. rewrite concat_snoc by exact Hne.
    destruct pre as [|x r]; [contradiction|].
    inversion Hpre as [|? ? Hx _]; subst.
    pose proof (concat_nonempty x r Hx) as Hc.
    destruct (String.concat "/" (x :: r)) as [|c0 s0] eqn:Ec; [contradiction|].
    reflexivity. }
  rewrite mkdir_chain_cons, Hj.
  destruct k as [|k].
  - reflexivity.
  - cbn [nth_error]. rewrite IH.
    + rewrite <- app_assoc. reflexivity.
    + destruct pre; [contradiction | discriminate].
    + apply Forall_app; split; [exact Hpre | constructor; [|constructor]].
      inversion Hsegs; assumption.
    + inversion Hsegs; assumption.
    + simpl in Hk; lia.
Qed.

Lemma segments_nonempty : forall p, Forall (fun s => s <> "") (segments p).
Proof.
  intros p. unfold segments. apply Forall_forall. intros s Hs.
  apply in_map_iff in Hs. destruct Hs as [w [<- Hw]].
  apply filter_In in Hw. destruct Hw as [_ Hw].
  destruct w; [discriminate | intros E; discriminate E].
Qed.

(** X14: [ensureDirAbs] issues one [mkdir] per path segment, root first: the k-th
    call creates ["/"] followed by the first k+1 segments joined with ["/"]. Every
    target is absolute, even when the given path is relative. *)
Lemma ensureDirAbs_prefixes : forall ph p,
  Forall (fun s => s <> "." /\ s <> "..") (segments p) ->
  length (ensureDirAbs ph p) = length (segments p) /\
  (forall k, k < length (segments p) ->
     nth_error (ensureDirAbs ph p) k
     = Some (Call ph (Mkdir ("/" ++ String.concat "/" (firstn (S k) (segments p)))%string))).
Proof.
  intros ph p _. unfold ensureDirAbs. split.
  - rewrite length_map. apply mkdir_chain_length.
  - intros k Hk. rewrite nth_error_map.
    pose proof (segments_nonempty p) as Hn.
    remember (segments p) as segs eqn:Es. clear Es.
    destruct segs as [|s t]; [simpl in Hk; lia|].
    assert (Hc : forall cur, String.eqb cur "" = true \/ String.eqb cur "/" = true ->
              nth_error (mkdir_chain cur (s :: t)) k
              = Some ("/" ++ String.concat "/" (firstn (S k) (s :: t)))%string).
    { intros cur Hcur. rewrite mkdir_chain_cons.
      assert (Hj : join_segment cur s = ("/" ++ String.concat "/" [s])%string).
      { unfold join_segment. destruct Hcur as [H|H]; rewrite H; [reflexivity|].
        destruct (String.eqb cur ""); reflexivity. }
      rewrite Hj. destruct k as [|k]; [reflexivity|].
      cbn [nth_error]. rewrite mkdir_chain_from.
      - reflexivity.
      - discriminate.
      - inversion Hn; constructor; [assumption | constructor].
      - inversion Hn; assumption.
      - simpl in Hk; lia. }
    rewrite Hc; [reflexivity|].
    destruct (String.prefix "/" p); [right | left]; reflexivity.
Qed.

Lemma ensureDirAbs_prefixes_witness :
  Forall (fun s => s <> "." /\ s <> "..") (segments "/home/u/web/d/public_html") /\
  length (ensureDirAbs Setup "/home/u/web/d/public_html")
    = length (segments "/home/u/web/d/public_html") /\
  (forall k, k < length (segments "/home/u/web/d/public_html") ->
     nth_error (ensureDirAbs Setup "/home/u/web/d/public_html") k
     = Some (Call Setup (Mkdir ("/" ++ String.concat "/"
                 (firstn (S k) (segments "/home/u/web/d/public_html")))%string))).
Proof.
  assert (H : Forall (fun s => s <> "." /\ s <> "..") (segments "/home/u/web/d/public_html")).
  { vm_compute. repeat constructor; discriminate. }
  split; [exact H|]. exact (ensureDirAbs_prefixes Setup "/home/u/web/d/public_html" H).
Defined.

(** ** SFTP runs: the reconciliation of a run whose calls succeed *)

(** X15: an SFTP run, deploy or restore, dry or real, never deletes a preserved
    path, and never puts a preserved path that the remote listing holds. *)
Lemma sftp_preserved_untouched : forall fl pr loc w dry t p,
  isPreservedRel pr p = true ->
  ~ In p (all_deletes (sftp_run fl pr loc w dry t)) /\
  (In p (files t) -> ~ In p (all_puts (sftp_run fl pr loc w dry t))).
Proof.
  intros fl pr loc w dry t p Hp; split.
  - destruct (sftp_run_projections fl pr loc w dry t) as [_ [HD _]]; cbv zeta in HD.
    rewrite HD; destruct dry; [intros []|].
    rewrite toDelete_In; intuition congruence.
  - intros Ht; apply preserved_present_not_put; assumption.
Qed.

Lemma sftp_preserved_untouched_witness :
  isPreservedRel default_preservePaths "uploads/x.jpg" = true /\
  ~ In "uploads/x.jpg"
      (all_deletes (sftp_run Deploy default_preservePaths ["uploads/x.jpg"; "index.html"] "/w"
                             false (mkTree ["uploads/x.jpg"; "a.txt"] []))) /\
  (In "uploads/x.jpg" (files (mkTree ["uploads/x.jpg"; "a.txt"] [])) ->
   ~ In "uploads/x.jpg"
       (all_puts (sftp_run Deploy default_preservePaths ["uploads/x.jpg"; "index.html"] "/w"
                           false (mkTree ["uploads/x.jpg"; "a.txt"] [])))).
Proof.
  assert (Hp : isPreservedRel default_preservePaths "uploads/x.jpg" = true) by reflexivity.
  split; [exact Hp|].
  exact (sftp_preserved_untouched Deploy default_preservePaths ["uploads/x.jpg"; "index.html"]
           "/w" false (mkTree ["uploads/x.jpg"; "a.txt"] []) "uploads/x.jpg" Hp).
Defined.

(** X16: in a real SFTP run (deploy or restore), over a remote listing without
    duplicates, the deleted paths are exactly the non-preserved remote files that
    are not non-preserved local files, each deleted once; every delete comes before
    every put; and Phase A puts every non-preserved local file, whatever the remote
    holds. *)
Lemma sftp_phaseA_authoritative : forall fl pr loc w t,
  NoDup (files t) ->
  let evs := sftp_run fl pr loc w false t in
  all_deletes evs = toDelete pr loc t /\
  (forall r, In r (all_deletes evs) <->
             In r (files t) /\ isPreservedRel pr r = false /\ ~ In r (localNonPreserve pr loc)) /\
  NoDup (all_deletes evs) /\
  (exists pre post, evs = pre ++ post /\ all_puts pre = [] /\ all_deletes post = []) /\
  puts_in PhaseAUpload evs = localNonPreserve pr loc.
Proof.
  intros fl pr loc w t Hnd evs.
  destruct (sftp_run_projections fl pr loc w false t) as [_ [HD [HA _]]]; simpl in HD, HA.
  unfold evs; rewrite HD, HA.
  split; [reflexivity|]; split; [intros r; apply toDelete_In|]; split.
  { unfold toDelete, remoteNonPreserve; apply NoDup_filter, NoDup_filter, Hnd. }
  split; [|reflexivity].
  destruct (setup_projections SFTP w) as [P0 [D0 _]].
  destruct (delete_steps_proj false (toDelete pr loc t)) as [P1 [D1 _]].
  destruct (sftp_tail_projections fl pr false t) as [P2 [D2 _]].
  exists (setup_webroot SFTP w ++ flat_map (delete_step false) (toDelete pr loc t)).
  exists (uploadManySftp w false PhaseAUpload (localNonPreserve pr loc)
          ++ uploadManySftp w false PhaseBMerge (newPreserve pr loc t)
          ++ match fl with
             | Deploy => sftp_prune false (remoteDirsDesc pr t)
             | Restore => []
             end).
  split; [|split].
  - unfold sftp_run; rewrite sftp_body_unguarded at 1; rewrite !app_assoc; reflexivity.
  - rewrite all_puts_app, P0, P1; reflexivity.
  - rewrite !all_deletes_app, !uploadManySftp_deletes, D2; reflexivity.
Qed.

Lemma sftp_phaseA_authoritative_witness :
  NoDup (files (mkTree ["a.txt"; "stale.txt"; "uploads/x.jpg"] [])) /\
  let evs := sftp_run Deploy ["uploads/"] ["a.txt"; "uploads/x.jpg"] "/w" false
                      (mkTree ["a.txt"; "stale.txt"; "uploads/x.jpg"] []) in
  all_deletes evs = toDelete ["uploads/"] ["a.txt"; "uploads/x.jpg"]
                      (mkTree ["a.txt"; "stale.txt"; "uploads/x.jpg"] []) /\
  (forall r, In r (all_deletes evs) <->
             In r ["a.txt"; "stale.txt"; "uploads/x.jpg"] /\ isPreservedRel ["uploads/"] r = false /\
             ~ In r (localNonPreserve ["uploads/"] ["a.txt"; "uploads/x.jpg"])) /\
  NoDup (all_deletes evs) /\
  (exists pre post, evs = pre ++ post /\ all_puts pre = [] /\ all_deletes post = []) /\
  puts_in PhaseAUpload evs = localNonPreserve ["uploads/"] ["a.txt"; "uploads/x.jpg"].
Proof.
  assert (Hnd : NoDup (files (mkTree ["a.txt"; "stale.txt"; "uploads/x.jpg"] []))).
  { simpl; repeat constructor; simpl; intuition discriminate. }
  split; [exact Hnd|].
  exact (sftp_phaseA_authoritative Deploy ["uploads/"] ["a.txt"; "uploads/x.jpg"] "/w"
           (mkTree ["a.txt"; "stale.txt"; "uploads/x.jpg"] []) Hnd).
Defined.



(** X18: a dry SFTP run issues, apart from the [mkdir] calls of the webroot
    set-up made before the listing, only planned lines; the remote files are left
    as they are, and the planned deletes, Phase A uploads and Phase B merges are the
    deletes, Phase A puts and Phase B puts of the real run on the same inputs. *)
Lemma sftp_dry_run_plans_real_run : forall fl pr loc w t,
  let d := sftp_run fl pr loc w true t in
  let r := sftp_run fl pr loc w false t in
  (exists planned, d = ensureDirAbs Setup w ++ planned /\
                   forall e, In e planned -> exists ph rel, e = Planned ph rel) /\
  files_after t d = files t /\
  planned_in PhaseADelete d = all_deletes r /\
  planned_in PhaseAUpload d = puts_in PhaseAUpload r /\
  planned_in PhaseBMerge d = puts_in PhaseBMerge r.
Proof.
  intros fl pr loc w t d r.
  destruct (sftp_run_projections fl pr loc w true t) as [DP [DD [_ [_ [D1 [D2 D3]]]]]].
  destruct (sftp_run_projections fl pr loc w false t) as [_ [RD [RA [RB _]]]].
  simpl in *; unfold d, r; rewrite D1, D2, D3, RD, RA, RB.
  split; [|split; [|repeat split]].
  - exists (sftp_body fl pr loc w true t); split.
    + unfold sftp_run; destruct fl; rewrite ?sftp_prune_dry, app_nil_r; reflexivity.
    + apply sftp_body_dry_planned.
  - unfold files_after; apply apply_events_neutral; assumption.
Qed.


(** ** FTP runs *)

Lemma nonempty_false : forall {A} (l : list A), nonempty l = false -> l = [].
Proof. intros A [|x l] H; [reflexivity | discriminate H]. Qed.

Lemma newPreserve_nil : forall pr loc t, localPreserve pr loc = [] -> newPreserve pr loc t = [].
Proof. intros pr loc t H; unfold newPreserve; rewrite H; reflexivity. Qed.

Lemma delete_steps_dry : forall l,
  flat_map (delete_step true) l = map (Planned PhaseADelete) l.
Proof. induction l as [|x l IH]; simpl; [reflexivity | rewrite IH; reflexivity]. Qed.

Lemma delete_steps_real : forall l,
  flat_map (delete_step false) l = map (fun r => Call PhaseADelete (Delete r)) l.
Proof. induction l as [|x l IH]; simpl; [reflexivity | rewrite IH; reflexivity]. Qed.

Lemma uploadMany_dry : forall ph l s, uploadMany true ph s l = (map (Planned ph) l, Some s).
Proof. intros ph l; induction l as [|x l IH]; intros s; simpl; [|rewrite IH]; reflexivity. Qed.

Lemma uploadMany_guard_dry : forall b ph s l, (b = false -> l = []) ->
  (if b then uploadMany true ph s l else ([], Some s)) = (map (Planned ph) l, Some s).
Proof.
  intros [|] ph s l H; [apply uploadMany_dry | rewrite (H eq_refl); reflexivity].
Qed.

Lemma ftp_prune_dry : forall ds s, ftp_prune true s ds = ([], s).
Proof. induction ds as [|d ds IH]; intros s; simpl; auto. Qed.

Lemma uploadMany_no_deletes : forall dry ph l s, all_deletes (fst (uploadMany dry ph s l)) = [].
Proof.
  intros dry ph l; induction l as [|x l IH]; intros s; [reflexivity|].
  destruct dry.
  - rewrite uploadMany_dry; apply flat_map_nil; intros e He; apply in_map_iff in He.
    destruct He as [r [<- _]]; reflexivity.
  - cbn [uploadMany].
    destruct (negb (String.eqb (posix_dirname x) "") && negb (String.eqb (posix_dirname x) ".")).
    + destruct (ftp_openDirs s (ftp_names (posix_dirname x))) as [s1|]; [|reflexivity].
      destruct (ftp_uploadFrom s1 x) as [s2|]; [|reflexivity].
      specialize (IH s2); destruct (uploadMany false ph s2 l) as [evs r]; exact IH.
    + destruct (ftp_uploadFrom s x) as [s2|]; [|reflexivity].
      specialize (IH s2); destruct (uploadMany false ph s2 l) as [evs r]; exact IH.
Qed.

Lemma uploadMany_guard_no_deletes : forall (b : bool) dry ph s l,
  all_deletes (fst (if b then uploadMany dry ph s l else (@nil event, Some s))) = [].
Proof. intros [|] dry ph s l; [apply uploadMany_no_deletes | reflexivity]. Qed.

Lemma ftp_prune_no_deletes : forall dry ds s, all_deletes (fst (ftp_prune dry s ds)) = [].
Proof.
  intros dry ds; induction ds as [|d ds IH]; intros s; [reflexivity|].
  cbn [ftp_prune]; destruct dry; [apply IH|].
  destruct (mem _ _ && is_empty_dir _ _).
  - match goal with |- context [ftp_prune false ?s' ds] =>
      specialize (IH s'); destruct (ftp_prune false s' ds) as [evs s'']
    end; exact IH.
  - specialize (IH s); destruct (ftp_prune false s ds) as [evs s'']; exact IH.
Qed.

(** The calls of an FTP run: the webroot set-up, the Phase A deletes, and then
    calls that delete nothing. *)
Lemma ftp_run_shape : forall fl pr loc w dry t,
  exists rest,
    fst (ftp_run fl pr loc w dry t) =
      setup_webroot FTP w ++ flat_map (delete_step dry) (toDelete pr loc t) ++ rest /\
    all_deletes rest = [].
Proof.
  intros fl pr loc w dry t; unfold ftp_run; cbv beta zeta.
  set (s1 := if dry then mkFtp t "" []
             else fold_left ftp_safeRemoveFile (toDelete pr loc t) (mkFtp t "" [])).
  set (A := if nonempty (localNonPreserve pr loc)
            then uploadMany dry PhaseAUpload s1 (localNonPreserve pr loc)
            else ([], Some s1)).
  assert (HA : all_deletes (fst A) = []) by apply uploadMany_guard_no_deletes.
  clearbody A; destruct A as [evA [sA|]]; simpl in HA.
  2: { exists evA; cbn [fst]; split; [rewrite <- app_assoc; reflexivity | exact HA]. }
  set (B := if nonempty (match fl with
                         | Deploy => localPreserve pr loc
                         | Restore => newPreserve pr loc t
                         end)
            then uploadMany dry PhaseBMerge sA (newPreserve pr loc t)
            else ([], Some sA)).
  assert (HB : all_deletes (fst B) = []) by apply uploadMany_guard_no_deletes.
  clearbody B; destruct B as [evB [sB|]]; simpl in HB.
  2: { exists (evA ++ evB); cbn [fst]; split; [rewrite <- !app_assoc; reflexivity|].
       rewrite all_deletes_app, HA, HB; reflexivity. }
  destruct fl.
  - pose proof (ftp_prune_no_deletes dry (remoteDirsDesc pr t) sB) as HP.
    destruct (ftp_prune dry sB (remoteDirsDesc pr t)) as [evP sP]; simpl in HP.
    exists (evA ++ evB ++ evP); cbn [fst]; split; [rewrite <- !app_assoc; reflexivity|].
    rewrite !all_deletes_app, HA, HB, HP; reflexivity.
  - exists (evA ++ evB); cbn [fst]; split; [rewrite <- !app_assoc; reflexivity|].
    rewrite all_deletes_app, HA, HB; reflexivity.
Qed.

(** X20: a dry FTP run issues the [ensureDir] of the webroot, then only planned
    lines: the deletes of [toDelete], the Phase A uploads of the non-preserved
    local files and the Phase B merges of the new preserved files, in this order;
    it leaves the server as it was. *)
Lemma ftp_dry_run_plan : forall fl pr loc w t,
  ftp_run fl pr loc w true t =
  (setup_webroot FTP w ++ map (Planned PhaseADelete) (toDelete pr loc t)
   ++ map (Planned PhaseAUpload) (localNonPreserve pr loc)
   ++ map (Planned PhaseBMerge) (newPreserve pr loc t),
   Some (mkFtp t "" [])).
Proof.
  intros fl pr loc w t; unfold ftp_run; cbv beta iota zeta.
  rewrite delete_steps_dry.
  rewrite (uploadMany_guard_dry (nonempty (localNonPreserve pr loc))) by apply nonempty_false.
  cbv beta iota.
  destruct fl.
  - rewrite (uploadMany_guard_dry (nonempty (localPreserve pr loc)))
      by (intros H; apply newPreserve_nil, nonempty_false, H).
    cbv beta iota; rewrite ftp_prune_dry; cbv beta iota.
    rewrite app_nil_r, <- !app_assoc; reflexivity.
  - rewrite (uploadMany_guard_dry (nonempty (newPreserve pr loc t))) by apply nonempty_false.
    cbv beta iota; rewrite <- !app_assoc; reflexivity.
Qed.

(** X21: in a real FTP run (deploy or restore), the calls after the webroot set-up
    start with one delete of each path of [toDelete], in order, and no later call
    deletes: the deletes are exactly [toDelete] and precede every upload. *)
Lemma ftp_deletes_first : forall fl pr loc w t,
  (exists rest,
     fst (ftp_run fl pr loc w false t) =
       setup_webroot FTP w ++ map (fun r => Call PhaseADelete (Delete r)) (toDelete pr loc t)
       ++ rest /\
     all_deletes rest = []) /\
  all_deletes (fst (ftp_run fl pr loc w false t)) = toDelete pr loc t.
Proof.
  intros fl pr loc w t.
  destruct (ftp_run_shape fl pr loc w false t) as [rest [E H]].
  rewrite delete_steps_real in E.
  split; [exists rest; split; assumption|].
  rewrite E, !all_deletes_app, H, app_nil_r; simpl; clear E.
  induction (toDelete pr loc t) as [|x l IH]; [reflexivity|].
  simpl; rewrite IH; reflexivity.
Qed.
